(** * Inventory stock reservation (InventoryService)

    A shallow embedding of the class [InventoryService] of
    [src/services/paymentService.js] (the second document of that file):
    [checkAvailability], [reserveStock], [releaseReservation],
    [updateStock], [getReservedStock], [checkStockAlerts] and
    [cleanupExpiredReservations], together with the collaborators they
    call ([Product], [cache], [logger], the event emitter, [setTimeout]
    and [Date.now]).

    JavaScript numbers are integers of [Z] here, strings are [string],
    the two nested [Map]s of [this.reservations] are [gmap]s, and an
    [async] method is a computation of the monad [M]: it threads the
    whole store and ends with a value or with a thrown error. *)

From Stdlib Require Import ZArith Lia.
From stdpp Require Import gmap strings list fin_maps.

Local Open Scope string_scope.
Local Open Scope Z_scope.

(** ** Data *)

(** A variant sub-document of a product.  [v.size] and [v.color] are only
    ever compared with [===] against a truthy string, so a missing field
    and the empty string behave alike and both are the empty string here.
    [v.stock] may be missing ([None]): the code reads it as
    [variant.stock || 0]. *)
Record variant := mkVariant {
  vsize : string;
  vcolor : string;
  vstock : option Z
}.

(** A product document.  [variants] may be missing altogether: the code
    reaches it through [product.variants?.find]. *)
Record product := mkProduct {
  isActive : bool;
  pstock : Z;
  variants : option (list variant)
}.

(** An entry of a per-key reservation map:
    [{ quantity, createdAt: Date.now(), ttl: ttl * 1000 }]. *)
Record reservation := mkReservation {
  quantity : Z;
  createdAt : Z;
  rttl : Z
}.

(** The [options] argument [{ size, color, ttl }]; a missing field is
    [None]. *)
Record options := mkOptions {
  opt_size : option string;
  opt_color : option string;
  opt_ttl : option Z
}.

(** Errors thrown by the service, one constructor per [new Error(...)]
    message, plus the three that come from outside: the [TypeError] of
    indexing a missing [variants] array, a rejected cache call and a
    listener that throws inside [emit]. *)
Inductive error :=
| InsufficientStock (avail requested : Z)
| ProductNotFound
| VariantNotFound
| InvalidOperation
| TypeError
| CacheError
| SinkError.

Inductive event :=
| StockReserved (pid : string) (q : Z) (rid : string)
| StockReleased (pid : string) (q : Z) (rid : string)
| StockUpdated (pid : string) (oldStock newStock : Z) (operation : string)
| OutOfStock (pid : string) (stock : Z)
| LowStock (pid : string) (stock threshold : Z).

Inductive logEntry :=
| InfoReserved (pid : string) (q : Z) (rid : string)
| InfoReleased (pid : string) (q : Z) (rid : string)
| InfoStockUpdated (pid : string) (oldStock newStock : Z)
| InfoCleaned (n : Z)
| ErrorChecking (e : error)
| ErrorReserving (e : error)
| ErrorReleasing (e : error)
| ErrorUpdating (e : error)
| WarnLowStock (pid : string) (stock threshold : Z)
| ErrorOutOfStock (pid : string) (stock : Z).

(** A pending [setTimeout(() => this.releaseReservation(reservationId,
    productId, { size, color }), ttl * 1000)]; [due] is the instant the
    runtime is to run it at. *)
Record timer := mkTimer {
  due : Z;
  t_rid : string;
  t_pid : string;
  t_size : option string;
  t_color : option string
}.

(** The commands of the cache collaborator that the service calls. *)
Inductive cacheCommand :=
| CacheGet
| CacheSetex
| CacheDel.

(** The store an operation runs in.

    [clock] is what [Date.now()] returns (milliseconds); it only moves
    between operations.  [reservations] is [this.reservations].
    [products] is the content of the catalog behind [Product] and [cache]
    the content of the cache behind [config/cache].  A cache entry is the
    pair of the stored integer and the instant it expires at; the service
    writes [actualAvailable.toString()] and reads it back with [parseInt],
    which are inverse on integers, so the entry keeps the integer.
    [cacheFault] says that the cache collaborator is failing, and
    [cacheServes] which of its commands a failing cache still serves: a
    failing cache rejects every other command, so the first rejected
    call of an operation can be any of its cache calls, the earlier ones
    having been served (none is served by a cache that is down).
    [alertFault] says that a listener of the [lowStock] and [outOfStock]
    events, registered after those of the module, throws.  [timers] are
    the callbacks set with [setTimeout], each with the instant the
    runtime is to run it at, [emitted] the events emitted and [logged]
    the lines written to the logger. *)
Record state := mkState {
  clock : Z;
  reservations : gmap string (gmap string reservation);
  products : gmap string product;
  cache : gmap string (Z * Z);
  cacheFault : bool;
  cacheServes : cacheCommand → bool;
  alertFault : bool;
  timers : list timer;
  emitted : list event;
  logged : list logEntry
}.

(** No command is served. *)
Definition noCommand : cacheCommand → bool := λ _, false.

Definition set_reservations (f : gmap string (gmap string reservation) →
                                 gmap string (gmap string reservation))
    (st : state) : state :=
  mkState (clock st) (f (reservations st)) (products st) (cache st)
          (cacheFault st) (cacheServes st) (alertFault st) (timers st) (emitted st) (logged st).

Definition set_products (f : gmap string product → gmap string product)
    (st : state) : state :=
  mkState (clock st) (reservations st) (f (products st)) (cache st)
          (cacheFault st) (cacheServes st) (alertFault st) (timers st) (emitted st) (logged st).

Definition set_cache (f : gmap string (Z * Z) → gmap string (Z * Z))
    (st : state) : state :=
  mkState (clock st) (reservations st) (products st) (f (cache st))
          (cacheFault st) (cacheServes st) (alertFault st) (timers st) (emitted st) (logged st).

Definition set_clock (f : Z → Z) (st : state) : state :=
  mkState (f (clock st)) (reservations st) (products st) (cache st)
          (cacheFault st) (cacheServes st) (alertFault st) (timers st) (emitted st) (logged st).

(** The collaborators change their condition. *)
Definition set_faults (fault : bool) (serves : cacheCommand → bool)
    (throws : bool) (st : state) : state :=
  mkState (clock st) (reservations st) (products st) (cache st)
          fault serves throws (timers st) (emitted st) (logged st).

Definition add_timer (t : timer) (st : state) : state :=
  mkState (clock st) (reservations st) (products st) (cache st)
          (cacheFault st) (cacheServes st) (alertFault st) (timers st ++ [t]) (emitted st)
          (logged st).

Definition add_event (e : event) (st : state) : state :=
  mkState (clock st) (reservations st) (products st) (cache st)
          (cacheFault st) (cacheServes st) (alertFault st) (timers st) (emitted st ++ [e])
          (logged st).

Definition add_log (l : logEntry) (st : state) : state :=
  mkState (clock st) (reservations st) (products st) (cache st)
          (cacheFault st) (cacheServes st) (alertFault st) (timers st) (emitted st)
          (logged st ++ [l]).

(** ** The monad of an operation *)

Inductive outcome (A : Type) :=
| Ok (a : A)
| Throw (e : error).
Arguments Ok {A} a.
Arguments Throw {A} e.

Definition M (A : Type) : Type := state → outcome A * state.

Definition ret {A} (a : A) : M A := λ st, (Ok a, st).

Definition throw {A} (e : error) : M A := λ st, (Throw e, st).

Definition bind {A B} (m : M A) (k : A → M B) : M B :=
  λ st, match m st with
        | (Ok a, st') => k a st'
        | (Throw e, st') => (Throw e, st')
        end.

(** [try { m } catch (error) { h error }]: the store keeps what [m] did
    before it threw. *)
Definition tryCatch {A} (m : M A) (h : error → M A) : M A :=
  λ st, match m st with
        | (Ok a, st') => (Ok a, st')
        | (Throw e, st') => h e st'
        end.

Definition modify (f : state → state) : M unit := λ st, (Ok tt, f st).

Definition gets {A} (f : state → A) : M A := λ st, (Ok (f st), st).

Notation "'do' x <- m ; k" := (bind m (λ x, k))
  (at level 10, x name, m at level 100, k at level 200).
Notation "'exec' m ; k" := (bind m (λ _, k))
  (at level 10, m at level 100, k at level 200).

(** ** Collaborators *)

(** Whether the cache collaborator rejects a command in a store. *)
Definition rejects (c : cacheCommand) (st : state) : bool :=
  cacheFault st && negb (cacheServes st c).

(** Modelled from the spec: [config/cache] is not among the sources;
    section 6 gives the cache store as [get(key)] answering a string or a
    miss, [setWithExpiry(key, value, ttlSeconds)] and [delete(key)].
    [cache.get(key)] answers the stored value while its expiry is ahead
    and [null] otherwise; a failing collaborator rejects the call, unless
    it still serves the command. *)
Definition cache_get (key : string) : M (option Z) :=
  λ st, if rejects CacheGet st then (Throw CacheError, st)
        else (Ok (match cache st !! key with
                  | Some (v, expiry) =>
                      if clock st <? expiry then Some v else None
                  | None => None
                  end), st).

(** Modelled from the spec: [cache.setex(key, seconds, value)], the
    [setWithExpiry] of section 6. *)
Definition cache_setex (key : string) (seconds : Z) (v : Z) : M unit :=
  λ st, if rejects CacheSetex st then (Throw CacheError, st)
        else (Ok tt, set_cache <[key := (v, clock st + seconds * 1000)]> st).

(** Modelled from the spec: [cache.del(key)], the [delete] of section
    6. *)
Definition cache_del (key : string) : M unit :=
  λ st, if rejects CacheDel st then (Throw CacheError, st)
        else (Ok tt, set_cache (delete key) st).

(** Modelled from the spec: the model [Product] the service requires is
    not among the sources; section 6 gives the catalog store as
    [getProduct(id)] answering the record or nothing, and
    [saveProduct(product)] replacing the whole record.
    [Product.findById(productId)]. *)
Definition findById (pid : string) : M (option product) :=
  gets (λ st, products st !! pid).

(** Modelled from the spec: [product.save()], the [saveProduct] of
    section 6. *)
Definition save (pid : string) (p : product) : M unit :=
  modify (set_products <[pid := p]>).

Definition log (l : logEntry) : M unit := modify (add_log l).

(** The events that have listeners are [lowStock] and [outOfStock]. *)
Definition is_alert (e : event) : bool :=
  match e with
  | OutOfStock _ _ | LowStock _ _ _ => true
  | _ => false
  end.

(** The listeners the module registers on its instance when it is
    loaded: [inventoryService.on('lowStock', (data) => logger.warn('Low
    stock alert:', data))] and [inventoryService.on('outOfStock', (data)
    => logger.error('Out of stock alert:', data))]. *)
Definition listeners (e : event) : M unit :=
  match e with
  | LowStock pid stock threshold => log (WarnLowStock pid stock threshold)
  | OutOfStock pid stock => log (ErrorOutOfStock pid stock)
  | _ => ret tt
  end.

(** [this.emit(name, data)] runs the listeners of the event
    synchronously and in the order of their registration: those of the
    module first, then the one that throws, if there is one; its
    exception leaves [emit]. *)
Definition emit (e : event) : M unit :=
  exec modify (add_event e);
  exec listeners e;
  λ st, if is_alert e && alertFault st then (Throw SinkError, st)
        else (Ok tt, st).

(** Modelled from the documentation of Node's timers: [setTimeout]
    belongs to the runtime, which is not among the sources.  "When
    [delay] is larger than 2147483647 or less than 1 or [NaN], the
    [delay] will be set to 1." *)
Definition timerDelay (delay : Z) : Z :=
  if (delay <? 1) || (2147483647 <? delay) then 1 else delay.

(** [setTimeout(callback, delay)], for the callback [t] with its [due]
    still to be set. *)
Definition setTimeout (t : Z → timer) (delay : Z) : M unit :=
  do now <- gets clock;
  modify (add_timer (t (now + timerDelay delay))).

(** ** Keys *)

(** Truthiness of an optional string: [undefined] and [''] are falsy. *)
Definition truthy (o : option string) : bool :=
  match o with
  | Some s => negb (String.eqb s "")
  | None => false
  end.

(** [o || 'any']. *)
Definition orAny (o : option string) : string :=
  match o with
  | Some s => if String.eqb s "" then "any" else s
  | None => "any"
  end.

(** [`${productId}:${size || 'any'}:${color || 'any'}`]. *)
Definition reservationKey (pid : string) (size color : option string) : string :=
  pid +:+ ":" +:+ orAny size +:+ ":" +:+ orAny color.

(** [`inventory:${productId}:${size || 'any'}:${color || 'any'}`]. *)
Definition cacheKey (pid : string) (size color : option string) : string :=
  "inventory:" +:+ pid +:+ ":" +:+ orAny size +:+ ":" +:+ orAny color.

(** [(!size || v.size === size) && (!color || v.color === color)]. *)
Definition matches (size color : option string) (v : variant) : bool :=
  (negb (truthy size) || String.eqb (vsize v) (default "" size))
  && (negb (truthy color) || String.eqb (vcolor v) (default "" color)).

(** [x || 0] on a possibly missing number. *)
Definition or0 (o : option Z) : Z :=
  match o with
  | Some z => if z =? 0 then 0 else z
  | None => 0
  end.

(** [variants.find(pred)]. *)
Fixpoint find_variant (size color : option string) (vs : list variant)
    : option variant :=
  match vs with
  | [] => None
  | v :: vs' => if matches size color v then Some v
                else find_variant size color vs'
  end.

(** [variants.findIndex(pred)]; [None] is the [-1] of JavaScript. *)
Fixpoint findIndex (size color : option string) (vs : list variant)
    : option nat :=
  match vs with
  | [] => None
  | v :: vs' => if matches size color v then Some O
                else S <$> findIndex size color vs'
  end.

(** ** getReservedStock *)

(** [now > reservation.createdAt + reservation.ttl]. *)
Definition expired (now : Z) (r : reservation) : bool :=
  now >? createdAt r + rttl r.

(** The loop of [getReservedStock] over the entries of one reservation
    map: an expired entry is deleted from the map, a live one adds its
    quantity to the total. *)
Definition scanReservations (now : Z) (m : gmap string reservation)
    : Z * gmap string reservation :=
  map_fold (λ rid r acc,
              if expired now r then (acc.1, delete rid acc.2)
              else (acc.1 + quantity r, acc.2))
           (0, m) m.

Definition getReservedStock (pid : string) (size color : option string)
    : M Z :=
  λ st,
    let key := reservationKey pid size color in
    match reservations st !! key with
    | None => (Ok 0, st)
    | Some productReservations =>
        let now := clock st in
        let '(totalReserved, kept) := scanReservations now productReservations in
        (Ok totalReserved, set_reservations <[key := kept]> st)
    end.

(** ** checkAvailability *)

Record availability := mkAvailability {
  available : bool;
  stock : Z;
  requested : Z;
  canFulfill : Z;
  reason : option string;
  reserved : option Z
}.

Definition checkAvailability (pid : string) (qty : Z)
    (size color : option string) : M availability :=
  tryCatch
    (let key := cacheKey pid size color in
     do cachedStock <- cache_get key;
     match cachedStock with
     | Some stock =>
         ret (mkAvailability (stock >=? qty) stock qty stock None None)
     | None =>
         do found <- findById pid;
         match found with
         | None =>
             ret (mkAvailability false 0 qty 0
                    (Some "Product not found or inactive") None)
         | Some p =>
             if negb (isActive p) then
               ret (mkAvailability false 0 qty 0
                      (Some "Product not found or inactive") None)
             else
               let resolved :=
                 if truthy size || truthy color then
                   match find_variant size color (default [] (variants p)) with
                   | Some v => Some (or0 (vstock v))
                   | None => None
                   end
                 else Some (pstock p) in
               match resolved with
               | None =>
                   ret (mkAvailability false 0 qty 0
                          (Some "Variant not found") None)
               | Some availableStock =>
                   do reservedStock <- getReservedStock pid size color;
                   let actualAvailable :=
                     Z.max 0 (availableStock - reservedStock) in
                   exec cache_setex key 300 actualAvailable;
                   ret (mkAvailability (actualAvailable >=? qty)
                          actualAvailable qty
                          (Z.min actualAvailable qty) None
                          (Some reservedStock))
               end
         end
     end)
    (λ e, exec log (ErrorChecking e); throw e).

(** ** reserveStock *)

Record reserveResult := mkReserveResult {
  rr_success : bool;
  rr_reservationId : string;
  rr_quantity : Z;
  rr_expiresAt : Z
}.

(** [if (!this.reservations.has(key)) this.reservations.set(key, new Map());
     this.reservations.get(key).set(reservationId, r)]. *)
Definition insertReservation (key rid : string) (r : reservation)
    (regs : gmap string (gmap string reservation))
    : gmap string (gmap string reservation) :=
  <[key := <[rid := r]> (default ∅ (regs !! key))]> regs.

Definition reserveStock (pid : string) (qty : Z) (opts : options)
    (rid : string) : M reserveResult :=
  tryCatch
    (let size := opt_size opts in
     let color := opt_color opts in
     let ttl := default 900 (opt_ttl opts) in
     do availability <- checkAvailability pid qty size color;
     if negb (available availability) then
       throw (InsufficientStock (stock availability) qty)
     else
       let key := reservationKey pid size color in
       do now <- gets clock;
       exec modify (set_reservations
                      (insertReservation key rid
                         (mkReservation qty now (ttl * 1000))));
       exec setTimeout (λ due, mkTimer due rid pid size color) (ttl * 1000);
       exec log (InfoReserved pid qty rid);
       exec cache_del (cacheKey pid size color);
       exec emit (StockReserved pid qty rid);
       do later <- gets clock;
       ret (mkReserveResult true rid qty (later + ttl * 1000)))
    (λ e, exec log (ErrorReserving e); throw e).

(** ** releaseReservation *)

(** [{ success: false, reason: 'Reservation not found' }] or
    [{ success: true, quantity }]. *)
Inductive releaseResult :=
| ReservationNotFound
| Released (q : Z).

Definition releaseReservation (rid pid : string) (size color : option string)
    : M releaseResult :=
  tryCatch
    (let key := reservationKey pid size color in
     do regs <- gets reservations;
     match regs !! key with
     | None => ret ReservationNotFound
     | Some productReservations =>
         match productReservations !! rid with
         | None => ret ReservationNotFound
         | Some r =>
             let remaining := delete rid productReservations in
             exec modify (set_reservations
                            (if decide (base.size remaining = 0%nat)
                             then delete key
                             else <[key := remaining]>));
             exec log (InfoReleased pid (quantity r) rid);
             exec cache_del (cacheKey pid size color);
             exec emit (StockReleased pid (quantity r) rid);
             ret (Released (quantity r))
         end
     end)
    (λ e, exec log (ErrorReleasing e); throw e).

(** The callback of the timer set by [reserveStock]. *)
Definition fireTimer (t : timer) : M releaseResult :=
  releaseReservation (t_rid t) (t_pid t) (t_size t) (t_color t).

(** ** updateStock *)

Definition lowStockThreshold : Z := 10.
Definition outOfStockThreshold : Z := 0.

(** The [switch (operation)] of [updateStock], the same in both of its
    branches; [None] is the [default:] case. *)
Definition applyOperation (operation : string) (oldStock qty : Z) : option Z :=
  if String.eqb operation "set" then Some qty
  else if String.eqb operation "add" then Some (oldStock + qty)
  else if String.eqb operation "subtract" then Some (Z.max 0 (oldStock - qty))
  else None.

(** [variants.reduce((sum, variant) => sum + (variant.stock || 0), 0)]. *)
Definition sumVariants (vs : list variant) : Z :=
  foldl (λ sum v, sum + or0 (vstock v)) 0 vs.

Definition setVariantStock (v : variant) (s : Z) : variant :=
  mkVariant (vsize v) (vcolor v) (Some s).

(** [checkStockAlerts(product, { size, color })]. *)
Definition checkStockAlerts (pid : string) (p : product)
    (size color : option string) : M unit :=
  let currentStock :=
    if truthy size || truthy color then
      match find_variant size color (default [] (variants p)) with
      | Some v => or0 (vstock v)
      | None => 0
      end
    else pstock p in
  if currentStock <=? outOfStockThreshold then
    emit (OutOfStock pid currentStock)
  else if currentStock <=? lowStockThreshold then
    emit (LowStock pid currentStock lowStockThreshold)
  else ret tt.

Record updateResult := mkUpdateResult {
  ur_success : bool;
  ur_oldStock : Z;
  ur_newStock : Z;
  ur_operation : string
}.

Definition updateStock (pid : string) (qty : Z) (operation : string)
    (size color : option string) : M updateResult :=
  tryCatch
    (do found <- findById pid;
     match found with
     | None => throw ProductNotFound
     | Some p =>
         do changed <-
           (if truthy size || truthy color then
              match variants p with
              | None => throw TypeError
              | Some vs =>
                  match findIndex size color vs with
                  | None => throw VariantNotFound
                  | Some variantIndex =>
                      match vs !! variantIndex with
                      | None => throw TypeError
                      | Some v =>
                          let oldStock := or0 (vstock v) in
                          match applyOperation operation oldStock qty with
                          | None => throw InvalidOperation
                          | Some newStock =>
                              let vs' :=
                                <[variantIndex := setVariantStock v newStock]> vs in
                              ret (oldStock, newStock,
                                   mkProduct (isActive p) (sumVariants vs')
                                             (Some vs'))
                          end
                      end
                  end
              end
            else
              let oldStock := pstock p in
              match applyOperation operation oldStock qty with
              | None => throw InvalidOperation
              | Some newStock =>
                  ret (oldStock, newStock,
                       mkProduct (isActive p) newStock (variants p))
              end);
         let '(oldStock, newStock, p') := changed in
         exec save pid p';
         exec log (InfoStockUpdated pid oldStock newStock);
         exec cache_del (cacheKey pid size color);
         exec checkStockAlerts pid p' size color;
         exec emit (StockUpdated pid oldStock newStock operation);
         ret (mkUpdateResult true oldStock newStock operation)
     end)
    (λ e, exec log (ErrorUpdating e); throw e).

(** ** cleanupExpiredReservations *)

(** The inner loop: every expired entry is deleted from the map and
    counted. *)
Definition sweepReservations (now : Z) (m : gmap string reservation)
    : gmap string reservation * Z :=
  map_fold (λ rid r acc,
              if expired now r then (delete rid acc.1, acc.2 + 1) else acc)
           (m, 0) m.

(** The outer loop over [this.reservations.entries()]: each map is swept
    in place and removed when it ends up empty. *)
Definition sweepAll (now : Z) (regs : gmap string (gmap string reservation))
    : gmap string (gmap string reservation) * Z :=
  map_fold (λ key m acc,
              let '(m', n) := sweepReservations now m in
              ((if decide (base.size m' = 0%nat) then delete key acc.1
                else <[key := m']> acc.1),
               acc.2 + n))
           (regs, 0) regs.

Definition cleanupExpiredReservations : M unit :=
  do now <- gets clock;
  do regs <- gets reservations;
  let '(regs', cleanedCount) := sweepAll now regs in
  exec modify (set_reservations (λ _, regs'));
  if cleanedCount >? 0 then log (InfoCleaned cleanedCount) else ret tt.

(** Time passing between two operations. *)
Definition tick (d : Z) : M unit := modify (set_clock (λ c, c + d)).

(** ** Derived quantities of the specification *)

(** A reservation is live at [now] when it has not expired. *)
Definition live (now : Z) (kr : string * reservation) : Prop :=
  expired now kr.2 = false.

#[local] Instance live_dec now kr : Decision (live now kr).
Proof. unfold live. apply _. Defined.

(** The same in terms of time alone: at [now], no more than its ttl has
    passed since the reservation was created, the instant
    [createdAt + ttl] itself included. *)
Definition withinTtl (now : Z) (kr : string * reservation) : Prop :=
  now ≤ createdAt kr.2 + rttl kr.2.

#[local] Instance withinTtl_dec now kr : Decision (withinTtl now kr).
Proof. unfold withinTtl. apply _. Defined.

(** What one reservation adds to the reserved total at [now]. *)
Definition contribution (now : Z) (r : reservation) : Z :=
  if expired now r then 0 else quantity r.

(** Sum of the quantities of the reservations of one map that are live at
    [now]. *)
Definition liveSum (now : Z) (m : gmap string reservation) : Z :=
  map_fold (λ _ r acc, acc + contribution now r) 0 m.

(** Reserved quantity of a key, by the store alone. *)
Definition reservedQty (st : state) (pid : string) (size color : option string)
    : Z :=
  match reservations st !! reservationKey pid size color with
  | Some m => liveSum (clock st) m
  | None => 0
  end.

(** The stock on record for a key: the stock of the variant the key
    resolves to, or of the product when neither size nor color is given. *)
Definition stockOf (p : product) (size color : option string) : option Z :=
  if truthy size || truthy color then
    match find_variant size color (default [] (variants p)) with
    | Some v => Some (or0 (vstock v))
    | None => None
    end
  else Some (pstock p).

Definition totalStock (st : state) (pid : string) (size color : option string)
    : option Z :=
  match products st !! pid with
  | Some p => stockOf p size color
  | None => None
  end.

(** [available = max(0, totalStock - reserved)], where the key has a stock
    record. *)
Definition availableStock (st : state) (pid : string)
    (size color : option string) : option Z :=
  match totalStock st pid size color with
  | Some total => Some (Z.max 0 (total - reservedQty st pid size color))
  | None => None
  end.

(** ** The stores the operations leave *)

(** What [cache.get] answers in a store. *)
Definition cacheLookup (st : state) (key : string) : option Z :=
  match cache st !! key with
  | Some (v, expiry) => if clock st <? expiry then Some v else None
  | None => None
  end.

(** The store after the lazy eviction of [getReservedStock] on a key. *)
Definition evictKey (key : string) (st : state) : state :=
  match reservations st !! key with
  | Some m => set_reservations <[key := filter (live (clock st)) m]> st
  | None => st
  end.

Definition unavailable (qty : Z) (why : string) : availability :=
  mkAvailability false 0 qty 0 (Some why) None.

(** What [checkAvailability] answers, and the store it leaves, when the
    cache serves its calls. *)
Definition checked (pid : string) (qty : Z) (size color : option string)
    (st : state) : outcome availability * state :=
  match cacheLookup st (cacheKey pid size color) with
  | Some c => (Ok (mkAvailability (c >=? qty) c qty c None None), st)
  | None =>
      match products st !! pid with
      | None => (Ok (unavailable qty "Product not found or inactive"), st)
      | Some p =>
          if isActive p then
            match stockOf p size color with
            | None => (Ok (unavailable qty "Variant not found"), st)
            | Some total =>
                let res := reservedQty st pid size color in
                let a := Z.max 0 (total - res) in
                (Ok (mkAvailability (a >=? qty) a qty (Z.min a qty) None
                       (Some res)),
                 set_cache <[cacheKey pid size color
                             := (a, clock st + 300 * 1000)]>
                           (evictKey (reservationKey pid size color) st))
            end
          else (Ok (unavailable qty "Product not found or inactive"), st)
      end
  end.

(** The store after [reserveStock] has admitted a reservation, from the
    store [checkAvailability] left. *)
Definition admitted (pid : string) (qty : Z) (opts : options) (rid : string)
    (st : state) : state :=
  let size := opt_size opts in
  let color := opt_color opts in
  let ttl := default 900 (opt_ttl opts) in
  add_event (StockReserved pid qty rid)
    (set_cache (delete (cacheKey pid size color))
       (add_log (InfoReserved pid qty rid)
          (add_timer (mkTimer (clock st + timerDelay (ttl * 1000)) rid pid
                        size color)
             (set_reservations
                (insertReservation (reservationKey pid size color) rid
                   (mkReservation qty (clock st) (ttl * 1000)))
                st)))).

(** The store [reserveStock] has reached when it comes to its
    [cache.del], from the store [checkAvailability] left: the reservation
    is in the registry, its timer is set and the line is logged. *)
Definition held (pid : string) (qty : Z) (opts : options) (rid : string)
    (st : state) : state :=
  let size := opt_size opts in
  let color := opt_color opts in
  let ttl := default 900 (opt_ttl opts) in
  add_log (InfoReserved pid qty rid)
    (add_timer (mkTimer (clock st + timerDelay (ttl * 1000)) rid pid size
                  color)
       (set_reservations
          (insertReservation (reservationKey pid size color) rid
             (mkReservation qty (clock st) (ttl * 1000)))
          st)).

(** The registry after reservation [rid] has left the map [m] of [key]. *)
Definition withoutReservation (key rid : string) (m : gmap string reservation)
    (regs : gmap string (gmap string reservation))
    : gmap string (gmap string reservation) :=
  if decide (base.size (delete rid m) = 0%nat) then delete key regs
  else <[key := delete rid m]> regs.

(** The product [updateStock] saves when the key resolves in [p] and the
    operation yields [newStock]. *)
Definition updatedProduct (p : product) (size color : option string)
    (newStock : Z) : product :=
  if truthy size || truthy color then
    match variants p with
    | Some vs =>
        match findIndex size color vs with
        | Some i =>
            match vs !! i with
            | Some v =>
                let vs' := <[i := setVariantStock v newStock]> vs in
                mkProduct (isActive p) (sumVariants vs') (Some vs')
            | None => p
            end
        | None => p
        end
    | None => p
    end
  else mkProduct (isActive p) newStock (variants p).

(** ** Calls that overlap *)

(** An [async] method runs until its next [await] and is resumed later;
    other calls may run in between.  [point] says where a call of
    [reserveStock] is suspended: at the [await] of a collaborator, with
    what that collaborator answered. *)
Inductive point :=
| AtStart
| AfterCacheGet (cachedStock : option Z)
| AfterFindById (found : option product)
| AfterSetex (a : availability)
| AfterCacheDel
| Finished (o : outcome reserveResult).

Section Steps.
Variables (pid : string) (qty : Z) (opts : options) (rid : string).

Local Abbreviation size := (opt_size opts).
Local Abbreviation color := (opt_color opts).
Local Abbreviation ttl := (default 900 (opt_ttl opts)).

(** An error inside [checkAvailability] passes through its [catch] and
    through the one of [reserveStock]. *)
Definition failInCheck (e : error) (st : state) : point * state :=
  (Finished (Throw e),
   add_log (ErrorReserving e) (add_log (ErrorChecking e) st)).

Definition failInReserve (e : error) (st : state) : point * state :=
  (Finished (Throw e), add_log (ErrorReserving e) st).

(** [reserveStock] from the answer of [checkAvailability] to its
    [await cache.del]. *)
Definition decide_admission (a : availability) (st : state)
    : point * state :=
  if negb (available a) then
    failInReserve (InsufficientStock (stock a) qty) st
  else
    let now := clock st in
    let st1 :=
      add_log (InfoReserved pid qty rid)
        (add_timer (mkTimer (now + timerDelay (ttl * 1000)) rid pid size
                      color)
           (set_reservations
              (insertReservation (reservationKey pid size color) rid
                 (mkReservation qty now (ttl * 1000))) st)) in
    match cache_del (cacheKey pid size color) st1 with
    | (Ok _, st2) => (AfterCacheDel, st2)
    | (Throw e, st2) => failInReserve e st2
    end.

(** One resumption: the synchronous code from [pt] up to the next call
    of a collaborator, and that call. *)
Definition step (pt : point) (st : state) : point * state :=
  match pt with
  | AtStart =>
      match cache_get (cacheKey pid size color) st with
      | (Ok c, st') => (AfterCacheGet c, st')
      | (Throw e, st') => failInCheck e st'
      end
  | AfterCacheGet (Some stock) =>
      decide_admission
        (mkAvailability (stock >=? qty) stock qty stock None None) st
  | AfterCacheGet None =>
      match findById pid st with
      | (Ok found, st') => (AfterFindById found, st')
      | (Throw e, st') => failInCheck e st'
      end
  | AfterFindById None =>
      decide_admission (unavailable qty "Product not found or inactive") st
  | AfterFindById (Some p) =>
      if negb (isActive p) then
        decide_admission (unavailable qty "Product not found or inactive") st
      else
        match stockOf p size color with
        | None => decide_admission (unavailable qty "Variant not found") st
        | Some availableStock =>
            match getReservedStock pid size color st with
            | (Ok reservedStock, st1) =>
                let actualAvailable :=
                  Z.max 0 (availableStock - reservedStock) in
                match cache_setex (cacheKey pid size color) 300
                        actualAvailable st1 with
                | (Ok _, st2) =>
                    (AfterSetex
                       (mkAvailability (actualAvailable >=? qty)
                          actualAvailable qty (Z.min actualAvailable qty)
                          None (Some reservedStock)), st2)
                | (Throw e, st2) => failInCheck e st2
                end
            | (Throw e, st1) => failInCheck e st1
            end
        end
  | AfterSetex a => decide_admission a st
  | AfterCacheDel =>
      match emit (StockReserved pid qty rid) st with
      | (Ok _, st') =>
          (Finished
             (Ok (mkReserveResult true rid qty (clock st' + ttl * 1000))),
           st')
      | (Throw e, st') => failInReserve e st'
      end
  | Finished o => (Finished o, st)
  end.

(** A call that is never interrupted. *)
Fixpoint uninterrupted (n : nat) (pt : point) (st : state) : point * state :=
  match n with
  | O => (pt, st)
  | S n' => let '(pt', st') := step pt st in uninterrupted n' pt' st'
  end.

End Steps.

(** A call in flight: its arguments and where it stands. *)
Record task := mkTask {
  k_pid : string;
  k_qty : Z;
  k_opts : options;
  k_rid : string;
  k_point : point
}.

Definition start (pid : string) (qty : Z) (opts : options) (rid : string)
    : task :=
  mkTask pid qty opts rid AtStart.

(** The event loop resumes task [i] once. *)
Definition resume (i : nat) (pool : list task) (st : state)
    : list task * state :=
  match pool !! i with
  | Some t =>
      let '(pt', st') :=
        step (k_pid t) (k_qty t) (k_opts t) (k_rid t) (k_point t) st in
      (<[i := mkTask (k_pid t) (k_qty t) (k_opts t) (k_rid t) pt']> pool, st')
  | None => (pool, st)
  end.

(** A schedule is the order in which the suspended calls are resumed. *)
Fixpoint runSchedule (schedule : list nat) (pool : list task) (st : state)
    : list task * state :=
  match schedule with
  | [] => (pool, st)
  | i :: rest => let '(pool', st') := resume i pool st in
                 runSchedule rest pool' st'
  end.

Definition succeeded (t : task) : bool :=
  match k_point t with
  | Finished (Ok _) => true
  | _ => false
  end.

Definition is_ok {A} (o : outcome A) : bool :=
  match o with
  | Ok _ => true
  | Throw _ => false
  end.

(** Calls one after another, each finished before the next starts. *)
Fixpoint reserveEach (pid : string) (qty : Z) (opts : options)
    (rids : list string) (st : state)
    : list (outcome reserveResult) * state :=
  match rids with
  | [] => ([], st)
  | rid :: rest =>
      let '(o, st1) := reserveStock pid qty opts rid st in
      let '(os, st2) := reserveEach pid qty opts rest st1 in
      (o :: os, st2)
  end.

(** ** Sequences of calls on one key *)

(** The calls of the service on a key, and what happens around them
    between two calls: time passes, and the collaborators change their
    condition (the cache starts or stops failing, on all or on some of
    its commands; a throwing listener is registered or removed). *)
Inductive call :=
| CallCheck (qty : Z)
| CallReserve (qty : Z) (ttl : option Z) (rid : string)
| CallRelease (rid : string)
| CallUpdate (qty : Z) (operation : string)
| CallSweep
| Elapse (d : Z)
| Faults (fault : bool) (serves : cacheCommand → bool) (throws : bool).

Definition runCall (pid : string) (size color : option string) (c : call)
    (st : state) : state :=
  match c with
  | CallCheck qty => (checkAvailability pid qty size color st).2
  | CallReserve qty ttl rid =>
      (reserveStock pid qty (mkOptions size color ttl) rid st).2
  | CallRelease rid => (releaseReservation rid pid size color st).2
  | CallUpdate qty operation => (updateStock pid qty operation size color st).2
  | CallSweep => (cleanupExpiredReservations st).2
  | Elapse d => (tick d st).2
  | Faults fault serves throws => set_faults fault serves throws st
  end.

Definition runCalls (pid : string) (size color : option string)
    (cs : list call) (st : state) : state :=
  foldl (λ s c, runCall pid size color c s) st cs.

(** The amount a call passes, where it passes one. *)
Definition amount (c : call) : Z :=
  match c with
  | CallReserve qty _ _ | CallUpdate qty _ => qty
  | _ => 0
  end.

(** ** Predicates of the statements *)

(** Sum of the quantities of all the reservations of a map. *)
Definition sumQuantities (m : gmap string reservation) : Z :=
  map_fold (λ _ r acc, acc + quantity r) 0 m.

(** Reservation [rid] is not in the map of [key]. *)
Definition absent (key rid : string) (st : state) : Prop :=
  (reservations st !! key) ≫= (.!! rid) = None.

(** What the catalog holds for the key once [updateStock] has set its
    stock to [newStock], from the product [p] it found: the key resolves
    to [newStock]; for a size/color key that variant alone has changed and
    the product's stock is the sum of the stocks of all its variants; for
    the plain key the product's stock is [newStock]. *)
Definition stockBecomes (pid : string) (size color : option string)
    (p : product) (newStock : Z) (st' : state) : Prop :=
  totalStock st' pid size color = Some newStock
  ∧ if truthy size || truthy color then
      ∃ vs i v,
        variants p = Some vs ∧ findIndex size color vs = Some i
        ∧ vs !! i = Some v
        ∧ let vs' := <[i := mkVariant (vsize v) (vcolor v) (Some newStock)]> vs in
          products st' !! pid
          = Some (mkProduct (isActive p)
                    (foldr Z.add 0 ((λ w, or0 (vstock w)) <$> vs'))
                    (Some vs'))
    else
      products st' !! pid = Some (mkProduct (isActive p) newStock (variants p)).

(** Every reservation of the key holds a non-negative quantity. *)
Definition quantitiesNonneg (key : string)
    (regs : gmap string (gmap string reservation)) : Prop :=
  ∀ m rid r, regs !! key = Some m → m !! rid = Some r → 0 ≤ quantity r.

(** The stock on record for the key, where there is one, is
    non-negative. *)
Definition stockNonneg (pid : string) (size color : option string)
    (st : state) : Prop :=
  ∀ total, totalStock st pid size color = Some total → 0 ≤ total.

(** What holds between two calls made in turn on the key of [opts], for a
    product [p] of stock [total]: [n] units are reserved, the cache does
    not know the key or holds its available stock, and the ids still to
    come are not in the registry. *)
Definition inTurn (pid : string) (opts : options) (p : product) (total : Z)
    (todo : list string) (n : Z) (st : state) : Prop :=
  let size := opt_size opts in
  let color := opt_color opts in
  cacheFault st = false ∧ products st !! pid = Some p
  ∧ reservedQty st pid size color = n ∧ 0 ≤ n ≤ total
  ∧ (cacheLookup st (cacheKey pid size color) = None
     ∨ cacheLookup st (cacheKey pid size color) = Some (total - n))
  ∧ Forall (λ rid, absent (reservationKey pid size color) rid st) todo.

(** The calls that succeed, among those made in turn. *)
Definition successes (os : list (outcome reserveResult)) : Z :=
  Z.of_nat (length (filter (λ o, is_ok o = true) os)).

(** The two facts the bounds of the available stock rest on. *)
Definition invariant (pid : string) (size color : option string)
    (st : state) : Prop :=
  stockNonneg pid size color st
  ∧ quantitiesNonneg (reservationKey pid size color) (reservations st).

(** The figure [reserveStock] compares the requested quantity with: the
    cached one when [cache.get] answers, otherwise the available stock of
    an active product, computed from catalog and registry. *)
Definition decidingStock (st : state) (pid : string)
    (size color : option string) : option Z :=
  match cacheLookup st (cacheKey pid size color) with
  | Some c => Some c
  | None =>
      match products st !! pid with
      | Some p => if isActive p then availableStock st pid size color else None
      | None => None
      end
  end.

(** ** Stores of the examples *)

(** A store with one active product ["p"] of stock [s], no variants, no
    reservations and an empty cache, at instant 0. *)
Definition shop (s : Z) : state :=
  mkState 0 ∅ {[ "p" := mkProduct true s None ]} ∅ false noCommand false [] [] [].

(** No size, no color, the default ttl. *)
Definition plain : options := mkOptions None None None.

(** A catalog with one product whose single variant carries its stock. *)
Definition boutique : state :=
  mkState 0 ∅
    {[ "p" := mkProduct true 2 (Some [mkVariant "9" "" (Some 2)]) ]}
    ∅ false noCommand false [] [] [].

(** The cache collaborator is down. *)
Definition outage : state :=
  mkState 0 ∅ {[ "p" := mkProduct true 5 None ]} ∅ true noCommand false
    [] [] [].

(** The cache still serves [get] and [setex] and rejects [del]. *)
Definition delRejected : state :=
  mkState 0 ∅ {[ "p" := mkProduct true 5 None ]} ∅ true
    (λ c, match c with CacheDel => false | _ => true end) false [] [] [].

(** The listener of the stock alerts throws. *)
Definition brokenSink : state :=
  mkState 0 ∅ {[ "p" := mkProduct true 5 None ]} ∅ false noCommand true
    [] [] [].

(** A product with two sizes. *)
Definition twoSizes : state :=
  mkState 0 ∅
    {[ "p" := mkProduct true 5
                (Some [mkVariant "9" "" (Some 2);
                       mkVariant "10" "" (Some 3)]) ]}
    ∅ false noCommand false [] [] [].

(** ** batchUpdateStock *)

(** An element of the [updates] array: [{ productId, quantity, operation,
    options }], where [operation] and [options] may be missing. *)
Record update := mkUpdate {
  u_productId : string;
  u_quantity : Z;
  u_operation : option string;
  u_size : option string;
  u_color : option string
}.

(** [update.operation || 'set']. *)
Definition orSet (o : option string) : string :=
  match o with
  | Some s => if String.eqb s "" then "set" else s
  | None => "set"
  end.

(** [{ ...result, productId }] or
    [{ success: false, error: error.message, productId }]. *)
Inductive batchResult :=
| BatchDone (r : updateResult) (pid : string)
| BatchFailed (e : error) (pid : string).

Definition batchProductId (r : batchResult) : string :=
  match r with
  | BatchDone _ pid | BatchFailed _ pid => pid
  end.

(** The body of the [for (const update of updates)] loop: the [try] pushes
    the result of [updateStock], the [catch] pushes the failure. *)
Definition batchOne (u : update) (results : list batchResult)
    : M (list batchResult) :=
  tryCatch
    (do result <- updateStock (u_productId u) (u_quantity u)
                    (orSet (u_operation u)) (u_size u) (u_color u);
     ret (results ++ [BatchDone result (u_productId u)])%list)
    (λ e, ret (results ++ [BatchFailed e (u_productId u)])%list).

Fixpoint batchLoop (updates : list update) (results : list batchResult)
    : M (list batchResult) :=
  match updates with
  | [] => ret results
  | u :: rest => do results' <- batchOne u results; batchLoop rest results'
  end.

Definition batchUpdateStock (updates : list update) : M (list batchResult) :=
  batchLoop updates [].

(** ** getLowStockProducts and getOutOfStockProducts *)

(** The query [{ stock: { $lte: threshold }, isActive: true }]. *)
Definition atMostInStock (threshold : Z) (kp : string * product) : Prop :=
  pstock kp.2 ≤ threshold ∧ isActive kp.2 = true.

#[local] Instance atMostInStock_dec threshold kp :
  Decision (atMostInStock threshold kp).
Proof. unfold atMostInStock. apply _. Defined.

(** [Product.find({ stock: { $lte: threshold }, isActive: true })]: the
    documents of the catalog that satisfy the query, by id (the [select]
    only narrows the fields that come back).  The catalog does not fail
    here, so the [catch] that logs and throws again is never entered. *)
Definition getLowStockProducts (threshold : Z) : M (gmap string product) :=
  gets (λ st, filter (atMostInStock threshold) (products st)).

Definition getOutOfStockProducts : M (gmap string product) :=
  gets (λ st, filter (atMostInStock outOfStockThreshold) (products st)).

(** ** Requests made in turn *)

(** [reserveStock] for each request (quantity and reservation id) of a
    list, each call finished before the next starts. *)
Fixpoint reserveInTurn (pid : string) (opts : options)
    (requests : list (Z * string)) (st : state)
    : list (outcome reserveResult) * state :=
  match requests with
  | [] => ([], st)
  | (qty, rid) :: rest =>
      let '(o, st1) := reserveStock pid qty opts rid st in
      let '(os, st2) := reserveInTurn pid opts rest st1 in
      (o :: os, st2)
  end.

(** The quantity granted: the sum of the quantities of the requests whose
    call succeeded. *)
Fixpoint granted (requests : list (Z * string))
    (os : list (outcome reserveResult)) : Z :=
  match requests, os with
  | (qty, _) :: rest, o :: os' =>
      (if is_ok o then qty else 0) + granted rest os'
  | _, _ => 0
  end.

(** ** Predicates of the further statements *)

(** Every cache entry expires at most 300 seconds from now. *)
Definition cacheFresh (st : state) : Prop :=
  ∀ key v expiry, cache st !! key = Some (v, expiry) →
                  expiry ≤ clock st + 300 * 1000.

(** Time does not run backwards in a call. *)
Definition forward (c : call) : Prop :=
  match c with
  | Elapse d => 0 ≤ d
  | _ => True
  end.

(** An operation leaves the cache with entries of at most 300 seconds
    when it finds it so. *)
Definition keepsFresh {A} (m : M A) : Prop :=
  ∀ st, cacheFresh st → cacheFresh (m st).2.

(** The line the listeners of the module write to the logger for a
    stock level, if any. *)
Definition alertLog (pid : string) (s : Z) : list logEntry :=
  if s <=? outOfStockThreshold then [ErrorOutOfStock pid s]
  else if s <=? lowStockThreshold then [WarnLowStock pid s lowStockThreshold]
  else [].

(** The alert [checkStockAlerts] emits for a stock level, if any. *)
Definition alertFor (pid : string) (s : Z) : list event :=
  if s <=? outOfStockThreshold then [OutOfStock pid s]
  else if s <=? lowStockThreshold then [LowStock pid s lowStockThreshold]
  else [].

(** * Properties *)

(** ** Facts about the reservation maps *)

Section Reservations.
Implicit Types m : gmap string reservation.
Implicit Types r : reservation.

Lemma or0_id z : or0 (Some z) = z.
Proof. unfold or0. destruct (Z.eqb_spec z 0); lia. Qed.

Lemma liveSum_empty now : liveSum now ∅ = 0.
Proof. unfold liveSum. by rewrite map_fold_empty. Qed.

Lemma liveSum_insert now m i r :
  m !! i = None →
  liveSum now (<[i := r]> m) = liveSum now m + contribution now r.
Proof.
  intros Hi. unfold liveSum.
  rewrite map_fold_insert_L; [done | | done].
  intros. lia.
Qed.

Lemma liveSum_delete now m i r :
  m !! i = Some r →
  liveSum now m = liveSum now (delete i m) + contribution now r.
Proof.
  intros Hi. unfold liveSum.
  rewrite (map_fold_delete_L _ _ i r m); [done | | done].
  intros. lia.
Qed.

Lemma liveSum_nonneg now m :
  (∀ i r, m !! i = Some r → 0 ≤ quantity r) → 0 ≤ liveSum now m.
Proof.
  induction m as [|i r m Hi IH] using map_ind; intros Hq.
  - rewrite liveSum_empty. lia.
  - rewrite liveSum_insert by done.
    assert (0 ≤ quantity r) by (apply (Hq i); apply lookup_insert_eq).
    assert (0 ≤ liveSum now m).
    { apply IH. intros j r' Hj. apply (Hq j).
      rewrite lookup_insert_ne; [done | congruence]. }
    unfold contribution. destruct (expired now r); lia.
Qed.

(** Dropping reservations that had expired by [t] does not change the
    live total at any later instant. *)
Lemma liveSum_filter t now m :
  t ≤ now → liveSum now (filter (live t) m) = liveSum now m.
Proof.
  intros Ht. induction m as [|i r m Hi IH] using map_ind.
  - by rewrite map_filter_empty.
  - destruct (expired t r) eqn:He.
    + rewrite map_filter_insert_not'; [| unfold live; simpl; congruence |].
      * rewrite liveSum_insert by done. rewrite IH.
        unfold contribution, expired in *.
        destruct (Z.gtb_spec t (createdAt r + rttl r)); [|done].
        destruct (Z.gtb_spec now (createdAt r + rttl r)); lia.
      * intros y Hy. congruence.
    + rewrite map_filter_insert_True by done.
      rewrite !liveSum_insert; [lia | done |].
      rewrite map_lookup_filter_None. by left.
Qed.

Lemma scanReservations_spec now m :
  scanReservations now m = (liveSum now m, filter (live now) m).
Proof.
  unfold scanReservations.
  assert (∀ m0,
    let res := map_fold (λ rid r (acc : Z * gmap string reservation),
                 if expired now r then (acc.1, delete rid acc.2)
                 else (acc.1 + quantity r, acc.2)) (0, m0) m in
    res.1 = liveSum now m ∧
    ∀ k, res.2 !! k = match m !! k with
                      | Some r => if expired now r then None else m0 !! k
                      | None => m0 !! k
                      end) as Hgen.
  { intros m0. apply (map_fold_weak_ind (λ res m,
      res.1 = liveSum now m ∧
      ∀ k, res.2 !! k = match m !! k with
                        | Some r => if expired now r then None else m0 !! k
                        | None => m0 !! k
                        end)).
    - split; [by rewrite liveSum_empty|]. intros k. by rewrite lookup_empty.
    - intros i r m' [tot kept] Hi [Hsum Hlook]. simpl in *.
      rewrite liveSum_insert by done. unfold contribution.
      destruct (expired now r) eqn:He; simpl; (split; [lia|]); intros k;
        destruct (decide (i = k)) as [->|Hne].
      + by rewrite lookup_delete_eq, lookup_insert_eq, He.
      + rewrite lookup_delete_ne, lookup_insert_ne by done. apply Hlook.
      + rewrite lookup_insert_eq, He. rewrite Hlook, Hi. done.
      + rewrite lookup_insert_ne by done. apply Hlook. }
  destruct (Hgen m) as [H1 H2].
  destruct (map_fold _ _ m) as [tot kept]. simpl in *. f_equal; [done|].
  apply map_eq. intros k. rewrite H2, map_lookup_filter.
  destruct (m !! k) as [r|] eqn:Hk; simpl; [|done].
  case_guard as Hl; simpl; unfold live in Hl; simpl in Hl.
  - by rewrite Hl.
  - by destruct (expired now r).
Qed.

End Reservations.

(** ** The operations, step by step *)

Section Operations.
Variables (pid : string) (size color : option string).

Local Abbreviation rkey := (reservationKey pid size color).
Local Abbreviation ckey := (cacheKey pid size color).

Lemma getReservedStock_eq st :
  getReservedStock pid size color st
  = (Ok (reservedQty st pid size color), evictKey rkey st).
Proof.
  unfold getReservedStock, reservedQty, evictKey.
  destruct (reservations st !! reservationKey pid size color) as [m|]; [|done].
  by rewrite scanReservations_spec.
Qed.

Lemma evictKey_clock key st : clock (evictKey key st) = clock st.
Proof. unfold evictKey. by destruct (reservations st !! key). Qed.

Lemma evictKey_products key st : products (evictKey key st) = products st.
Proof. unfold evictKey. by destruct (reservations st !! key). Qed.

Lemma evictKey_cacheFault key st :
  cacheFault (evictKey key st) = cacheFault st.
Proof. unfold evictKey. by destruct (reservations st !! key). Qed.

Lemma evictKey_cacheServes key st :
  cacheServes (evictKey key st) = cacheServes st.
Proof. unfold evictKey. by destruct (reservations st !! key). Qed.

Lemma evictKey_lookup key st k :
  reservations (evictKey key st) !! k
  = if decide (key = k)
    then filter (live (clock st)) <$> reservations st !! k
    else reservations st !! k.
Proof.
  unfold evictKey. destruct (reservations st !! key) as [m|] eqn:Hm; simpl.
  - rewrite lookup_insert. case_decide; subst; [by rewrite Hm | done].
  - case_decide; subst; [by rewrite Hm | done].
Qed.

(** Eviction removes only what no longer counts. *)
Lemma reservedQty_evictKey key st :
  reservedQty (evictKey key st) pid size color = reservedQty st pid size color.
Proof.
  unfold reservedQty. rewrite evictKey_lookup, evictKey_clock.
  case_decide; [|done].
  destruct (reservations st !! reservationKey pid size color); simpl; [|done].
  by apply liveSum_filter.
Qed.

Lemma rejects_working c st : cacheFault st = false → rejects c st = false.
Proof. unfold rejects. by intros ->. Qed.

Lemma rejects_evictKey c key st : rejects c (evictKey key st) = rejects c st.
Proof. unfold evictKey. by destruct (reservations st !! key). Qed.

(** [checkAvailability] when the cache serves [get] and [setex]. *)
Lemma checkAvailability_served qty st :
  rejects CacheGet st = false → rejects CacheSetex st = false →
  checkAvailability pid qty size color st = checked pid qty size color st.
Proof.
  intros Hg Hs.
  unfold checkAvailability, checked, tryCatch, bind, cache_get, cacheLookup,
    findById, gets, ret.
  rewrite Hg. fold (cacheKey pid size color).
  destruct (cache st !! cacheKey pid size color) as [[v e]|];
    [destruct (clock st <? e); [done|] |];
    (destruct (products st !! pid) as [p|]; [|done];
     destruct (isActive p); simpl; [|done];
     unfold stockOf;
     destruct (truthy size || truthy color);
     [destruct (find_variant size color (default [] (variants p))); [|done] |];
     rewrite getReservedStock_eq; unfold cache_setex;
     rewrite rejects_evictKey, Hs, evictKey_clock; done).
Qed.

(** [checkAvailability] when the cache collaborator works. *)
Lemma checkAvailability_eq qty st :
  cacheFault st = false →
  checkAvailability pid qty size color st =
  match cacheLookup st ckey with
  | Some c => (Ok (mkAvailability (c >=? qty) c qty c None None), st)
  | None =>
      match products st !! pid with
      | None => (Ok (unavailable qty "Product not found or inactive"), st)
      | Some p =>
          if isActive p then
            match stockOf p size color with
            | None => (Ok (unavailable qty "Variant not found"), st)
            | Some total =>
                let res := reservedQty st pid size color in
                let a := Z.max 0 (total - res) in
                (Ok (mkAvailability (a >=? qty) a qty (Z.min a qty) None
                       (Some res)),
                 set_cache <[ckey := (a, clock st + 300 * 1000)]>
                           (evictKey rkey st))
            end
          else (Ok (unavailable qty "Product not found or inactive"), st)
      end
  end.
Proof.
  intros Hf. rewrite checkAvailability_served by (by apply rejects_working).
  done.
Qed.

(** [checkAvailability] when the cache rejects [get], the first call of
    the method. *)
Lemma checkAvailability_rejected qty st :
  rejects CacheGet st = true →
  checkAvailability pid qty size color st
  = (Throw CacheError, add_log (ErrorChecking CacheError) st).
Proof.
  intros Hg.
  unfold checkAvailability, tryCatch, bind, cache_get. by rewrite Hg.
Qed.

(** [checkAvailability] when the cache serves [get] and rejects [setex]:
    only a miss on a key that resolves comes to [setex], after the lazy
    eviction. *)
Lemma checkAvailability_unwritten qty st :
  rejects CacheGet st = false → rejects CacheSetex st = true →
  checkAvailability pid qty size color st
  = match checked pid qty size color st with
    | (Ok a, st0) =>
        match reserved a with
        | Some _ =>
            (Throw CacheError,
             add_log (ErrorChecking CacheError) (evictKey rkey st))
        | None => (Ok a, st0)
        end
    | other => other
    end.
Proof.
  intros Hg Hs.
  unfold checkAvailability, checked, tryCatch, bind, cache_get, cacheLookup,
    findById, gets, ret.
  rewrite Hg. fold (cacheKey pid size color).
  destruct (cache st !! cacheKey pid size color) as [[v e]|];
    [destruct (clock st <? e); [done|] |];
    (destruct (products st !! pid) as [p|]; [|done];
     destruct (isActive p); simpl; [|done];
     unfold stockOf;
     destruct (truthy size || truthy color);
     [destruct (find_variant size color (default [] (variants p))); [|done] |];
     rewrite getReservedStock_eq; unfold cache_setex;
     rewrite rejects_evictKey, Hs; done).
Qed.

(** Whenever [checkAvailability] returns, it returns what it does with a
    cache that serves its calls. *)
Lemma checkAvailability_ok qty st a st0 :
  checkAvailability pid qty size color st = (Ok a, st0) →
  checked pid qty size color st = (Ok a, st0).
Proof.
  destruct (rejects CacheGet st) eqn:Hg.
  { by rewrite checkAvailability_rejected. }
  destruct (rejects CacheSetex st) eqn:Hs.
  - rewrite checkAvailability_unwritten by done.
    destruct (checked pid qty size color st) as [[a'|e] st']; [|done].
    by destruct (reserved a').
  - by rewrite checkAvailability_served.
Qed.

(** The store [checked] leaves is the one it found, or that one with the
    key evicted and cached. *)
Lemma checked_cases qty st :
  ∃ a st0,
    checked pid qty size color st = (Ok a, st0)
    ∧ (st0 = st ∨ ∃ v, st0 = set_cache <[ckey := v]> (evictKey rkey st)).
Proof.
  unfold checked.
  destruct (cacheLookup st _); [eauto|].
  destruct (products st !! pid) as [p|]; [|eauto].
  destruct (isActive p); [|eauto].
  destruct (stockOf p size color); [|eauto].
  do 2 eexists. split; [done|]. right. eauto.
Qed.

(** The three ways [checkAvailability] can end. *)
Lemma checkAvailability_outcomes qty st :
  checkAvailability pid qty size color st = checked pid qty size color st
  ∨ checkAvailability pid qty size color st
    = (Throw CacheError, add_log (ErrorChecking CacheError) st)
  ∨ checkAvailability pid qty size color st
    = (Throw CacheError,
       add_log (ErrorChecking CacheError) (evictKey rkey st)).
Proof.
  destruct (rejects CacheGet st) eqn:Hg.
  { right. left. by apply checkAvailability_rejected. }
  destruct (rejects CacheSetex st) eqn:Hs.
  - rewrite checkAvailability_unwritten by done.
    destruct (checked pid qty size color st) as [[a'|e] st'];
      [|by left].
    destruct (reserved a'); [by right; right | by left].
  - left. by apply checkAvailability_served.
Qed.

End Operations.

Section Reserve.
Variables (pid : string) (qty : Z) (opts : options) (rid : string).

Lemma checkAvailability_frame size color st :
  let st' := (checkAvailability pid qty size color st).2 in
  clock st' = clock st ∧ products st' = products st ∧
  cacheFault st' = cacheFault st ∧ alertFault st' = alertFault st.
Proof.
  simpl.
  destruct (checkAvailability_outcomes pid size color qty st)
    as [-> | [-> | ->]]; simpl;
    [| done
     | by rewrite evictKey_clock, evictKey_products, evictKey_cacheFault;
         unfold evictKey; destruct (reservations st !! _)].
  destruct (checked_cases pid size color qty st)
    as (a & st0 & -> & [-> | [v ->]]); simpl; [done|].
  by rewrite evictKey_clock, evictKey_products, evictKey_cacheFault;
    unfold evictKey; destruct (reservations st !! _).
Qed.

Lemma checkAvailability_rejects c size color st :
  rejects c (checkAvailability pid qty size color st).2 = rejects c st.
Proof.
  destruct (checkAvailability_outcomes pid size color qty st)
    as [-> | [-> | ->]]; simpl; [| done | apply rejects_evictKey].
  destruct (checked_cases pid size color qty st)
    as (a & st0 & -> & [-> | [v ->]]); simpl; [done|].
  apply (rejects_evictKey c).
Qed.

Lemma reserveStock_admit_served st a st1 :
  rejects CacheDel st = false →
  checkAvailability pid qty (opt_size opts) (opt_color opts) st = (Ok a, st1) →
  available a = true →
  reserveStock pid qty opts rid st
  = (Ok (mkReserveResult true rid qty
           (clock st + default 900 (opt_ttl opts) * 1000)),
     admitted pid qty opts rid st1).
Proof.
  intros Hf Hc Ha.
  pose proof (checkAvailability_frame (opt_size opts) (opt_color opts) st)
    as (Hclk & _).
  pose proof (checkAvailability_rejects CacheDel (opt_size opts)
                (opt_color opts) st) as Hcf.
  rewrite Hc in Hclk, Hcf. simpl in Hclk, Hcf.
  unfold reserveStock, tryCatch, bind. rewrite Hc, Ha. simpl.
  unfold cache_del. simpl.
  change (rejects CacheDel _) with (rejects CacheDel st1).
  rewrite Hcf, Hf. simpl.
  unfold admitted. by rewrite Hclk.
Qed.

(** When the cache rejects [del], the reservation has been made. *)
Lemma reserveStock_admit_rejected st a st1 :
  rejects CacheDel st = true →
  checkAvailability pid qty (opt_size opts) (opt_color opts) st = (Ok a, st1) →
  available a = true →
  reserveStock pid qty opts rid st
  = (Throw CacheError,
     add_log (ErrorReserving CacheError) (held pid qty opts rid st1)).
Proof.
  intros Hf Hc Ha.
  pose proof (checkAvailability_rejects CacheDel (opt_size opts)
                (opt_color opts) st) as Hcf.
  rewrite Hc in Hcf. simpl in Hcf.
  unfold reserveStock, tryCatch, bind. rewrite Hc, Ha. simpl.
  unfold cache_del. simpl.
  change (rejects CacheDel _) with (rejects CacheDel st1).
  by rewrite Hcf, Hf.
Qed.

Lemma reserveStock_admit st a st1 :
  cacheFault st = false →
  checkAvailability pid qty (opt_size opts) (opt_color opts) st = (Ok a, st1) →
  available a = true →
  reserveStock pid qty opts rid st
  = (Ok (mkReserveResult true rid qty
           (clock st + default 900 (opt_ttl opts) * 1000)),
     admitted pid qty opts rid st1).
Proof.
  intros Hf. apply reserveStock_admit_served. by apply rejects_working.
Qed.

Lemma reserveStock_reject st a st1 :
  checkAvailability pid qty (opt_size opts) (opt_color opts) st = (Ok a, st1) →
  available a = false →
  reserveStock pid qty opts rid st
  = (Throw (InsufficientStock (stock a) qty),
     add_log (ErrorReserving (InsufficientStock (stock a) qty)) st1).
Proof.
  intros Hc Ha. unfold reserveStock, tryCatch, bind. by rewrite Hc, Ha.
Qed.

Lemma reserveStock_rethrow st e st1 :
  checkAvailability pid qty (opt_size opts) (opt_color opts) st = (Throw e, st1) →
  reserveStock pid qty opts rid st = (Throw e, add_log (ErrorReserving e) st1).
Proof.
  intros Hc. unfold reserveStock, tryCatch, bind. by rewrite Hc.
Qed.

End Reserve.

(** ** The periodic sweep *)

Section Sweep.
Implicit Types m : gmap string reservation.
Implicit Types regs : gmap string (gmap string reservation).

Lemma sweepReservations_kept now m :
  (sweepReservations now m).1 = filter (live now) m.
Proof.
  unfold sweepReservations.
  assert (∀ m0,
    ∀ k, (map_fold (λ rid r (acc : gmap string reservation * Z),
             if expired now r then (delete rid acc.1, acc.2 + 1) else acc)
           (m0, 0) m).1 !! k
         = match m !! k with
           | Some r => if expired now r then None else m0 !! k
           | None => m0 !! k
           end) as Hgen.
  { intros m0. apply (map_fold_weak_ind (λ res m,
      ∀ k, res.1 !! k = match m !! k with
                        | Some r => if expired now r then None else m0 !! k
                        | None => m0 !! k
                        end)).
    - intros k. by rewrite lookup_empty.
    - intros i r m' [kept n] Hi Hlook k. simpl in *.
      destruct (expired now r) eqn:He; simpl;
        destruct (decide (i = k)) as [->|Hne].
      + by rewrite lookup_delete_eq, lookup_insert_eq, He.
      + rewrite lookup_delete_ne, lookup_insert_ne by done. apply Hlook.
      + rewrite lookup_insert_eq, He. rewrite Hlook, Hi. done.
      + rewrite lookup_insert_ne by done. apply Hlook. }
  apply map_eq. intros k. rewrite Hgen, map_lookup_filter.
  destruct (m !! k) as [r|] eqn:Hk; simpl; [|done].
  case_guard as Hl; simpl; unfold live in Hl; simpl in Hl.
  - by rewrite Hl.
  - by destruct (expired now r).
Qed.

(** After the sweep a key holds its live reservations, and is absent
    when it has none. *)
Lemma sweepAll_lookup now regs k :
  (sweepAll now regs).1 !! k
  = match regs !! k with
    | Some m => if decide (filter (live now) m = ∅) then None
                else Some (filter (live now) m)
    | None => None
    end.
Proof.
  unfold sweepAll.
  assert (∀ regs0,
    (map_fold (λ key m (acc : gmap string (gmap string reservation) * Z),
        let '(m', n) := sweepReservations now m in
        ((if decide (base.size m' = 0%nat) then delete key acc.1
          else <[key := m']> acc.1), acc.2 + n))
      (regs0, 0) regs).1 !! k
    = match regs !! k with
      | Some m => if decide (filter (live now) m = ∅) then None
                  else Some (filter (live now) m)
      | None => regs0 !! k
      end) as Hgen.
  { intros regs0. apply (map_fold_weak_ind (λ res regs,
      res.1 !! k = match regs !! k with
                   | Some m => if decide (filter (live now) m = ∅) then None
                               else Some (filter (live now) m)
                   | None => regs0 !! k
                   end)).
    - by rewrite lookup_empty.
    - intros i m regs' [acc n] Hi Hlook. simpl in *.
      pose proof (sweepReservations_kept now m) as Hk.
      destruct (sweepReservations now m) as [m' c]. simpl in *. subst m'.
      destruct (decide (i = k)) as [->|Hne].
      + rewrite lookup_insert_eq.
        destruct (decide (base.size (filter (live now) m) = 0%nat)) as [Hz|Hz];
          simpl.
        * apply map_size_empty_iff in Hz. rewrite Hz.
          rewrite lookup_delete_eq. by rewrite decide_True.
        * apply map_size_non_empty_iff in Hz.
          rewrite lookup_insert_eq. by rewrite decide_False.
      + rewrite (lookup_insert_ne regs') by done.
        destruct (decide (base.size (filter (live now) m) = 0%nat)); simpl.
        * by rewrite lookup_delete_ne.
        * by rewrite lookup_insert_ne. }
  rewrite Hgen. by destruct (regs !! k).
Qed.

Lemma cleanup_reservations st :
  reservations (cleanupExpiredReservations st).2
  = (sweepAll (clock st) (reservations st)).1.
Proof.
  unfold cleanupExpiredReservations, bind, gets, modify. simpl.
  destruct (sweepAll (clock st) (reservations st)) as [regs' n]. simpl.
  unfold log, modify, ret. by destruct (n >? 0).
Qed.

Lemma cleanup_frame st :
  let st' := (cleanupExpiredReservations st).2 in
  clock st' = clock st ∧ products st' = products st ∧ cache st' = cache st.
Proof.
  unfold cleanupExpiredReservations, bind, gets, modify. simpl.
  destruct (sweepAll (clock st) (reservations st)) as [regs' n]. simpl.
  unfold log, modify, ret. by destruct (n >? 0).
Qed.

End Sweep.

(** ** releaseReservation *)

Section Release.
Variables (rid pid : string) (size color : option string).

Local Abbreviation rkey := (reservationKey pid size color).
Local Abbreviation ckey := (cacheKey pid size color).

Lemma releaseReservation_missing st :
  (reservations st !! rkey) ≫= (.!! rid) = None →
  releaseReservation rid pid size color st = (Ok ReservationNotFound, st).
Proof.
  unfold releaseReservation, tryCatch, bind, gets, ret.
  destruct (reservations st !! _) as [m|]; simpl; [|done].
  by intros ->.
Qed.

Lemma releaseReservation_found_served st m r :
  reservations st !! rkey = Some m → m !! rid = Some r →
  rejects CacheDel st = false →
  releaseReservation rid pid size color st
  = (Ok (Released (quantity r)),
     add_event (StockReleased pid (quantity r) rid)
       (set_cache (delete ckey)
          (add_log (InfoReleased pid (quantity r) rid)
             (set_reservations (withoutReservation rkey rid m) st)))).
Proof.
  intros Hm Hr Hf. unfold rejects in Hf.
  unfold releaseReservation, tryCatch, bind, gets, ret.
  rewrite Hm, Hr.
  unfold modify, log, cache_del, rejects, emit, listeners, bind, modify, ret.
  simpl. rewrite Hf. unfold withoutReservation. simpl.
  by destruct (decide _).
Qed.

Lemma releaseReservation_found st m r :
  reservations st !! rkey = Some m → m !! rid = Some r →
  cacheFault st = false →
  releaseReservation rid pid size color st
  = (Ok (Released (quantity r)),
     add_event (StockReleased pid (quantity r) rid)
       (set_cache (delete ckey)
          (add_log (InfoReleased pid (quantity r) rid)
             (set_reservations (withoutReservation rkey rid m) st)))).
Proof.
  intros Hm Hr Hf. apply releaseReservation_found_served; [done | done |].
  by apply rejects_working.
Qed.

(** When the cache rejects [del] the reservation is gone all the same,
    and the call ends with the error. *)
Lemma releaseReservation_found_rejected st m r :
  reservations st !! rkey = Some m → m !! rid = Some r →
  rejects CacheDel st = true →
  releaseReservation rid pid size color st
  = (Throw CacheError,
     add_log (ErrorReleasing CacheError)
       (add_log (InfoReleased pid (quantity r) rid)
          (set_reservations (withoutReservation rkey rid m) st))).
Proof.
  intros Hm Hr Hf. unfold rejects in Hf.
  unfold releaseReservation, tryCatch, bind, gets, ret.
  rewrite Hm, Hr. unfold modify, log, cache_del, rejects, modify. simpl.
  rewrite Hf. unfold withoutReservation. simpl.
  by destruct (decide _).
Qed.

(** The live total of a key once [rid] has been taken out of its map. *)
Lemma liveSum_withoutReservation now m regs :
  match withoutReservation rkey rid m regs !! rkey with
  | Some m' => liveSum now m'
  | None => 0
  end = liveSum now (delete rid m).
Proof.
  unfold withoutReservation. destruct (decide _) as [Hz|Hz].
  - rewrite lookup_delete_eq. apply map_size_empty_iff in Hz.
    by rewrite Hz, liveSum_empty.
  - by rewrite lookup_insert_eq.
Qed.

End Release.

(** ** updateStock *)

Section Variants.
Variables (size color : option string).

Lemma findIndex_lookup vs i :
  findIndex size color vs = Some i →
  ∃ v, vs !! i = Some v ∧ find_variant size color vs = Some v
       ∧ matches size color v = true.
Proof.
  revert i. induction vs as [|w vs IH]; intros i; simpl; [done|].
  destruct (matches size color w) eqn:Hw.
  - intros [= <-]. by exists w.
  - destruct (findIndex size color vs) as [j|]; simpl; [|done].
    intros [= <-]. destruct (IH j eq_refl) as (v & ? & ? & ?). by exists v.
Qed.

Lemma find_variant_findIndex vs v :
  find_variant size color vs = Some v →
  ∃ i, findIndex size color vs = Some i ∧ vs !! i = Some v.
Proof.
  induction vs as [|w vs IH]; simpl; [done|].
  destruct (matches size color w) eqn:Hw.
  - intros [= <-]. by exists O.
  - intros Hv. destruct (IH Hv) as (i & Hi & Hl). exists (S i).
    by rewrite Hi.
Qed.

Lemma find_variant_insert vs i v' :
  findIndex size color vs = Some i → matches size color v' = true →
  find_variant size color (<[i := v']> vs) = Some v'.
Proof.
  revert i. induction vs as [|w vs IH]; intros i; simpl; [done|].
  destruct (matches size color w) eqn:Hw.
  - intros [= <-] Hm. simpl. by rewrite Hm.
  - destruct (findIndex size color vs) as [j|]; simpl; [|done].
    intros [= <-] Hm. simpl. rewrite Hw. by apply IH.
Qed.

(** The key resolves to [newStock] in the saved product. *)
Lemma stockOf_updatedProduct p old newStock :
  stockOf p size color = Some old →
  stockOf (updatedProduct p size color newStock) size color = Some newStock.
Proof.
  unfold stockOf, updatedProduct.
  destruct (truthy size || truthy color) eqn:Hk; [|done].
  destruct (variants p) as [vs|]; simpl; [|done].
  destruct (find_variant size color vs) as [v|] eqn:Hv; [|done]. intros _.
  destruct (find_variant_findIndex vs v Hv) as (i & Hi & Hl).
  rewrite Hi, Hl. simpl.
  destruct (findIndex_lookup vs i Hi) as (v0 & Hl0 & _ & Hm).
  assert (v0 = v) as -> by congruence.
  rewrite (find_variant_insert vs i (setVariantStock v newStock) Hi Hm).
  unfold setVariantStock. cbn [vstock]. by rewrite or0_id.
Qed.

End Variants.

(** The aggregate of [updateStock] is the sum of the variant stocks. *)
Lemma sumVariants_sum vs :
  sumVariants vs = foldr Z.add 0 ((λ v, or0 (vstock v)) <$> vs).
Proof.
  unfold sumVariants.
  assert (∀ a, foldl (λ sum v, sum + or0 (vstock v)) a vs
               = a + foldr Z.add 0 ((λ v, or0 (vstock v)) <$> vs)) as H.
  { induction vs as [|v vs IH]; intros a; csimpl; [lia|]. rewrite IH. lia. }
  rewrite H. lia.
Qed.

Section Update.
Variables (pid : string) (qty : Z) (operation : string)
          (size color : option string).

Local Abbreviation ckey := (cacheKey pid size color).

(** Up to [cache.del], for a product and a key that resolve. *)
Lemma updateStock_found_served st p old newStock :
  products st !! pid = Some p →
  stockOf p size color = Some old →
  applyOperation operation old qty = Some newStock →
  rejects CacheDel st = false →
  updateStock pid qty operation size color st =
  let p' := updatedProduct p size color newStock in
  let st1 := set_cache (delete ckey)
               (add_log (InfoStockUpdated pid old newStock)
                  (set_products <[pid := p']> st)) in
  match checkStockAlerts pid p' size color st1 with
  | (Ok _, st2) =>
      (Ok (mkUpdateResult true old newStock operation),
       add_event (StockUpdated pid old newStock operation) st2)
  | (Throw e, st2) => (Throw e, add_log (ErrorUpdating e) st2)
  end.
Proof.
  intros Hp Hs Hop Hf. unfold rejects in Hf.
  unfold updateStock, tryCatch, bind, findById, gets. rewrite Hp.
  unfold stockOf, updatedProduct in *.
  destruct (truthy size || truthy color) eqn:Hk.
  - destruct (variants p) as [vs|]; simpl in Hs; [|done].
    destruct (find_variant size color vs) as [v|] eqn:Hv; [|done].
    destruct (find_variant_findIndex size color vs v Hv) as (i & Hi & Hl).
    rewrite Hi, Hl. injection Hs as <-. rewrite Hop. simpl.
    unfold cache_del, rejects. simpl. rewrite Hf. simpl.
    by destruct (checkStockAlerts _ _ _ _ _) as [[|] ?].
  - injection Hs as <-. rewrite Hop. simpl.
    unfold cache_del, rejects. simpl. rewrite Hf. simpl.
    by destruct (checkStockAlerts _ _ _ _ _) as [[|] ?].
Qed.

Lemma updateStock_found st p old newStock :
  products st !! pid = Some p →
  stockOf p size color = Some old →
  applyOperation operation old qty = Some newStock →
  cacheFault st = false →
  updateStock pid qty operation size color st =
  let p' := updatedProduct p size color newStock in
  let st1 := set_cache (delete ckey)
               (add_log (InfoStockUpdated pid old newStock)
                  (set_products <[pid := p']> st)) in
  match checkStockAlerts pid p' size color st1 with
  | (Ok _, st2) =>
      (Ok (mkUpdateResult true old newStock operation),
       add_event (StockUpdated pid old newStock operation) st2)
  | (Throw e, st2) => (Throw e, add_log (ErrorUpdating e) st2)
  end.
Proof.
  intros Hp Hs Hop Hf. apply updateStock_found_served; try done.
  by apply rejects_working.
Qed.

(** When the cache rejects [del], the new stock has been saved. *)
Lemma updateStock_found_rejected st p old newStock :
  products st !! pid = Some p →
  stockOf p size color = Some old →
  applyOperation operation old qty = Some newStock →
  rejects CacheDel st = true →
  updateStock pid qty operation size color st
  = (Throw CacheError,
     add_log (ErrorUpdating CacheError)
       (add_log (InfoStockUpdated pid old newStock)
          (set_products <[pid := updatedProduct p size color newStock]> st))).
Proof.
  intros Hp Hs Hop Hf. unfold rejects in Hf.
  unfold updateStock, tryCatch, bind, findById, gets. rewrite Hp.
  unfold stockOf, updatedProduct in *.
  destruct (truthy size || truthy color).
  - destruct (variants p) as [vs|]; simpl in Hs; [|done].
    destruct (find_variant size color vs) as [v|] eqn:Hv; [|done].
    destruct (find_variant_findIndex size color vs v Hv) as (i & Hi & Hl).
    rewrite Hi, Hl. injection Hs as <-. rewrite Hop. simpl.
    unfold cache_del, rejects. simpl. by rewrite Hf.
  - injection Hs as <-. rewrite Hop. simpl.
    unfold cache_del, rejects. simpl. by rewrite Hf.
Qed.

(** The alert check, on a product where the key resolves to [s]. *)
Lemma checkStockAlerts_eq p s st :
  stockOf p size color = Some s →
  checkStockAlerts pid p size color st =
  if s <=? outOfStockThreshold then emit (OutOfStock pid s) st
  else if s <=? lowStockThreshold then
    emit (LowStock pid s lowStockThreshold) st
  else (Ok tt, st).
Proof.
  unfold checkStockAlerts, stockOf.
  destruct (truthy size || truthy color).
  - destruct (find_variant _ _ _); [|done]. intros [= <-].
    destruct (_ <=? outOfStockThreshold); [done|].
    by destruct (_ <=? lowStockThreshold).
  - intros [= <-].
    destruct (_ <=? outOfStockThreshold); [done|].
    by destruct (_ <=? lowStockThreshold).
Qed.

Lemma updateStock_ok st p old newStock :
  products st !! pid = Some p →
  stockOf p size color = Some old →
  applyOperation operation old qty = Some newStock →
  cacheFault st = false → alertFault st = false →
  ∃ st',
    updateStock pid qty operation size color st
    = (Ok (mkUpdateResult true old newStock operation), st')
    ∧ products st'
      = <[pid := updatedProduct p size color newStock]> (products st)
    ∧ reservations st' = reservations st
    ∧ cache st' = delete ckey (cache st)
    ∧ clock st' = clock st.
Proof.
  intros Hp Hs Hop Hf Ha.
  rewrite (updateStock_found st p old newStock) by done. simpl.
  rewrite (checkStockAlerts_eq _ newStock)
    by (by apply stockOf_updatedProduct with old).
  destruct (newStock <=? outOfStockThreshold);
    [|destruct (newStock <=? lowStockThreshold)];
    unfold emit, listeners, log, bind, modify; simpl; rewrite ?Ha; simpl;
    eauto 10.
Qed.

(** An operation outside [set], [add] and [subtract]. *)
Lemma updateStock_invalid st p old :
  products st !! pid = Some p →
  stockOf p size color = Some old →
  applyOperation operation old qty = None →
  updateStock pid qty operation size color st
  = (Throw InvalidOperation, add_log (ErrorUpdating InvalidOperation) st).
Proof.
  intros Hp Hs Hop.
  unfold updateStock, tryCatch, bind, findById, gets. rewrite Hp.
  unfold stockOf in *.
  destruct (truthy size || truthy color) eqn:Hk.
  - destruct (variants p) as [vs|]; simpl in Hs; [|done].
    destruct (find_variant size color vs) as [v|] eqn:Hv; [|done].
    destruct (find_variant_findIndex size color vs v Hv) as (i & Hi & Hl).
    rewrite Hi, Hl. injection Hs as <-. by rewrite Hop.
  - injection Hs as <-. by rewrite Hop.
Qed.

End Update.

(** ** A call that is not interrupted is the method itself *)

Lemma uninterrupted_reserveStock pid qty opts rid st :
  uninterrupted pid qty opts rid 5 AtStart st
  = let '(o, st') := reserveStock pid qty opts rid st in (Finished o, st').
Proof.
  unfold reserveStock, checkAvailability, tryCatch, bind, uninterrupted, step,
    decide_admission, failInCheck, failInReserve, unavailable,
    cache_get, cache_del, cache_setex, rejects, findById, gets, ret, throw,
    modify, log, setTimeout, emit, listeners, bind, gets, modify, ret.
  destruct (cacheFault st) eqn:Hf, (cacheServes st CacheGet) eqn:Hg,
    (cacheServes st CacheSetex) eqn:Hs, (cacheServes st CacheDel) eqn:Hd;
    simpl; try done;
    (destruct (cache st !! _) as [[v e]|]; simpl;
     [destruct (clock st <? e); simpl;
      [destruct (v >=? qty); simpl; by rewrite ?Hf, ?Hd|] |];
     (destruct (products st !! pid) as [p|]; simpl; [|done];
      destruct (isActive p); simpl; [|done];
      unfold stockOf; destruct (truthy _ || truthy _); simpl;
      [destruct (find_variant _ _ _); simpl; [|done] |];
      rewrite getReservedStock_eq; simpl;
      rewrite ?evictKey_cacheFault, ?evictKey_cacheServes, ?Hf, ?Hs; simpl;
      try done;
      destruct (_ >=? qty); simpl;
      by rewrite ?evictKey_cacheFault, ?evictKey_cacheServes, ?Hf, ?Hd,
           ?evictKey_clock)).
Qed.

(** ** Expiry *)

Section Expiry.
Implicit Types m : gmap string reservation.

Lemma sumQuantities_insert m i r :
  m !! i = None → sumQuantities (<[i := r]> m) = sumQuantities m + quantity r.
Proof.
  intros Hi. unfold sumQuantities.
  rewrite map_fold_insert_L; [done | | done]. intros. lia.
Qed.

(** The live total is the plain sum over the live reservations. *)
Lemma liveSum_sumQuantities now m :
  liveSum now m = sumQuantities (filter (live now) m).
Proof.
  induction m as [|i r m Hi IH] using map_ind.
  - rewrite map_filter_empty, liveSum_empty. unfold sumQuantities.
    by rewrite map_fold_empty.
  - rewrite liveSum_insert by done. unfold contribution.
    destruct (expired now r) eqn:He.
    + rewrite map_filter_insert_not'; [lia | unfold live; simpl; congruence |].
      intros y Hy. congruence.
    + rewrite map_filter_insert_True by done.
      rewrite sumQuantities_insert; [lia|].
      rewrite map_lookup_filter_None. by left.
Qed.

Lemma liveSum_expired now m rid r :
  m !! rid = Some r → expired now r = true →
  liveSum now m = liveSum now (delete rid m).
Proof.
  intros Hr He. rewrite (liveSum_delete now m rid r Hr).
  unfold contribution. rewrite He. lia.
Qed.

Lemma reservedQty_cleanup st pid size color :
  reservedQty (cleanupExpiredReservations st).2 pid size color
  = reservedQty st pid size color.
Proof.
  unfold reservedQty. rewrite cleanup_reservations, sweepAll_lookup.
  destruct (cleanup_frame st) as (-> & _).
  destruct (reservations st !! _) as [m|]; [|done].
  rewrite <- (liveSum_filter (clock st) (clock st) m) by lia.
  destruct (decide _) as [->|]; [|done]. by rewrite liveSum_empty.
Qed.

Lemma availableStock_cleanup st pid size color :
  availableStock (cleanupExpiredReservations st).2 pid size color
  = availableStock st pid size color.
Proof.
  unfold availableStock, totalStock. rewrite reservedQty_cleanup.
  by destruct (cleanup_frame st) as (_ & -> & _).
Qed.

Lemma absent_cleanup st key m rid r :
  reservations st !! key = Some m → m !! rid = Some r →
  expired (clock st) r = true →
  absent key rid (cleanupExpiredReservations st).2.
Proof.
  intros Hm Hr He. unfold absent.
  rewrite cleanup_reservations, sweepAll_lookup, Hm.
  destruct (decide _); simpl; [done|].
  rewrite map_lookup_filter_None. right. intros r' Hr'.
  assert (r' = r) as -> by congruence. unfold live. simpl. congruence.
Qed.

End Expiry.

(** ** What a successful call leaves *)

Section Outcomes.
Variables (pid : string) (qty : Z) (opts : options) (rid : string).

Local Abbreviation size := (opt_size opts).
Local Abbreviation color := (opt_color opts).
Local Abbreviation ttl := (default 900 (opt_ttl opts)).
Local Abbreviation rkey := (reservationKey pid size color).
Local Abbreviation ckey := (cacheKey pid size color).

(** With a working cache [checkAvailability] returns, and leaves the
    store as it was or evicted and cached. *)
Lemma checkAvailability_cases st :
  cacheFault st = false →
  ∃ a st0,
    checkAvailability pid qty size color st = (Ok a, st0)
    ∧ (st0 = st ∨ ∃ v, st0 = set_cache <[ckey := v]> (evictKey rkey st)).
Proof.
  intros Hf.
  rewrite checkAvailability_served by (by apply rejects_working).
  apply checked_cases.
Qed.

(** A [reserveStock] that returns has been served by the cache: its
    check returned what it returns with a working cache, and its
    [cache.del] went through. *)
Lemma reserveStock_ok_inv st res st1 :
  reserveStock pid qty opts rid st = (Ok res, st1) →
  rejects CacheDel st = false
  ∧ res = mkReserveResult true rid qty (clock st + ttl * 1000)
  ∧ ∃ a st0,
      checkAvailability pid qty size color st = (Ok a, st0)
      ∧ available a = true
      ∧ st1 = admitted pid qty opts rid st0
      ∧ (st0 = st ∨ ∃ v, st0 = set_cache <[ckey := v]> (evictKey rkey st)).
Proof.
  intros Hr.
  destruct (checkAvailability pid qty size color st) as [[a|e] st0] eqn:Hc.
  2: { by rewrite (reserveStock_rethrow _ _ _ _ _ e st0) in Hr. }
  destruct (available a) eqn:Ha.
  2: { by rewrite (reserveStock_reject _ _ _ _ _ a st0) in Hr. }
  destruct (rejects CacheDel st) eqn:Hd.
  { by rewrite (reserveStock_admit_rejected _ _ _ _ _ a st0) in Hr. }
  rewrite (reserveStock_admit_served _ _ _ _ _ a st0) in Hr by done.
  injection Hr as <- <-.
  apply checkAvailability_ok in Hc as Hck.
  destruct (checked_cases pid size color qty st) as (a' & st0' & Hck' & Hst0).
  rewrite Hck in Hck'. injection Hck' as <- <-. eauto 10.
Qed.

(** The map of the key after an admission. *)
Lemma admitted_lookup st0 :
  reservations (admitted pid qty opts rid st0) !! rkey
  = Some (<[rid := mkReservation qty (clock st0) (ttl * 1000)]>
            (default ∅ (reservations st0 !! rkey))).
Proof. unfold admitted, insertReservation. simpl. apply lookup_insert_eq. Qed.

End Outcomes.

(** ** Expiry of a reservation, and the stock mutations *)

Lemma lookup_withoutReservation key rid m regs :
  (withoutReservation key rid m regs !! key) ≫= (.!! rid) = None.
Proof.
  unfold withoutReservation. destruct (decide _).
  - by rewrite lookup_delete_eq.
  - rewrite lookup_insert_eq. simpl. apply lookup_delete_eq.
Qed.

Lemma live_withinTtl now kr : live now kr ↔ withinTtl now kr.
Proof.
  unfold live, withinTtl, expired.
  destruct (Z.gtb_spec now (createdAt kr.2 + rttl kr.2)); split;
    first [done | lia].
Qed.

Lemma filter_live_withinTtl now (m : gmap string reservation) :
  filter (live now) m = filter (withinTtl now) m.
Proof. apply map_filter_ext. intros i r _. apply live_withinTtl. Qed.

Lemma kept_by_cleanup st key m rid r :
  reservations st !! key = Some m → m !! rid = Some r →
  expired (clock st) r = false →
  (reservations (cleanupExpiredReservations st).2 !! key) ≫= (.!! rid)
  = Some r.
Proof.
  intros Hm Hr He.
  assert (filter (live (clock st)) m !! rid = Some r) as Hk.
  { by apply map_lookup_filter_Some. }
  rewrite cleanup_reservations, sweepAll_lookup, Hm.
  destruct (decide _) as [Hz|]; simpl; [|done].
  by rewrite Hz, lookup_empty in Hk.
Qed.

(** C5, as stated, fails at the instant of expiry: with a reservation of
    3 units made at instant 0 with a ttl of 60 seconds, [expiresAt] is
    60000; at instant 60000, when the ttl has elapsed and [expiresAt] is
    no longer in the future, [getReservedStock] still counts the 3 units
    and 2 units are available; one millisecond later it counts none. *)
Lemma C5_counted_at_the_instant_of_expiry :
  let opts := mkOptions None None (Some 60) in
  let st1 := (reserveStock "p" 3 opts "r1" (shop 5)).2 in
  let st2 := (tick 60000 st1).2 in
  (reserveStock "p" 3 opts "r1" (shop 5)).1
  = Ok (mkReserveResult true "r1" 3 60000)
  ∧ clock st2 = 60000
  ∧ (getReservedStock "p" None None st2).1 = Ok 3
  ∧ availableStock st2 "p" None None = Some 2
  ∧ (getReservedStock "p" None None (tick 1 st2).2).1 = Ok 0.
Proof. vm_compute. done. Qed.

(** C5, amended.  [getReservedStock] returns the sum of the quantities of
    exactly the reservations of the key for which no more than the ttl
    has passed since their creation ([now <= createdAt + ttl], the
    instant [createdAt + ttl] included), and leaves in the map of the key
    exactly those: every other one it scans is evicted.  Consequently,
    [d] milliseconds after a [reserveStock] with a ttl of [t] seconds has
    succeeded, the reservation adds its quantity to the reserved quantity
    of the key when [d <= 1000 t] and nothing when [d > 1000 t], without
    any release.  The timer [reserveStock] has set is due [1000 t]
    milliseconds after the call, or 1 millisecond after it when [1000 t]
    is not between 1 and 2147483647; whenever its callback runs it
    releases the reservation; the periodic sweep keeps the reservation
    when [d <= 1000 t] and removes it when [d > 1000 t]; and when
    [d > 1000 t] neither changes the available stock, which already left
    the reservation out. *)
Theorem C5_reserved_is_live_total_and_expiry :
  (∀ pid size color st,
     ∃ st',
       getReservedStock pid size color st
       = (Ok (match reservations st !! reservationKey pid size color with
              | Some m => sumQuantities (filter (withinTtl (clock st)) m)
              | None => 0
              end), st')
       ∧ ∀ k, reservations st' !! k
              = if decide (reservationKey pid size color = k)
                then filter (withinTtl (clock st)) <$> reservations st !! k
                else reservations st !! k)
  ∧
  (∀ pid qty opts rid st res d,
     (reserveStock pid qty opts rid st).1 = Ok res →
     let size := opt_size opts in
     let color := opt_color opts in
     let ttl := default 900 (opt_ttl opts) in
     let key := reservationKey pid size color in
     let t := mkTimer (clock st + timerDelay (ttl * 1000)) rid pid size color in
     let st1 := (reserveStock pid qty opts rid st).2 in
     let st2 := (tick d st1).2 in
     rr_expiresAt res = clock st + ttl * 1000
     ∧ t ∈ timers st1
     ∧ ∃ m, reservations st2 !! key = Some m
            ∧ m !! rid = Some (mkReservation qty (clock st) (ttl * 1000))
            ∧ reservedQty st2 pid size color
              = liveSum (clock st2) (delete rid m)
                + (if d <=? ttl * 1000 then qty else 0)
            ∧ (getReservedStock pid size color st2).1
              = Ok (reservedQty st2 pid size color)
            ∧ (∃ st3, fireTimer t st2 = (Ok (Released qty), st3)
                      ∧ absent key rid st3
                      ∧ reservedQty st3 pid size color
                        = liveSum (clock st2) (delete rid m)
                      ∧ (ttl * 1000 < d →
                         availableStock st3 pid size color
                         = availableStock st2 pid size color))
            ∧ (let st3 := (cleanupExpiredReservations st2).2 in
               (d ≤ ttl * 1000 →
                (reservations st3 !! key) ≫= (.!! rid)
                = Some (mkReservation qty (clock st) (ttl * 1000)))
               ∧ (ttl * 1000 < d →
                  absent key rid st3
                  ∧ availableStock st3 pid size color
                    = availableStock st2 pid size color))).
Proof.
  split.
  - intros pid size color st. eexists. split.
    + rewrite getReservedStock_eq. unfold reservedQty.
      destruct (reservations st !! _); [|done].
      by rewrite liveSum_sumQuantities, filter_live_withinTtl.
    + intros k. rewrite evictKey_lookup. case_decide; [|done].
      destruct (reservations st !! k); simpl; [|done].
      by rewrite filter_live_withinTtl.
  - intros pid qty opts rid st res d Hok size color ttl key t st1 st2.
    destruct (reserveStock pid qty opts rid st) as [o s1] eqn:Hr.
    simpl in Hok. subst o. subst st1. simpl in st2.
    destruct (reserveStock_ok_inv _ _ _ _ _ _ _ Hr)
      as (Hf & -> & a & st0 & Hc & Ha & -> & Hst0).
    pose proof (checkAvailability_frame pid qty size color st)
      as (Hclk & Hprod & _).
    pose proof (checkAvailability_rejects pid qty CacheDel size color st)
      as Hcf.
    unfold size, color in Hclk, Hprod, Hcf. rewrite Hc in Hclk, Hprod, Hcf.
    simpl in Hclk, Hprod, Hcf.
    set (r0 := mkReservation qty (clock st) (ttl * 1000)).
    set (m := <[rid := r0]> (default ∅ (reservations st0 !! key))).
    assert (reservations st2 !! key = Some m) as Hm.
    { subst st2 m r0. simpl. unfold insertReservation. rewrite Hclk.
      apply lookup_insert_eq. }
    assert (m !! rid = Some r0) as Hrid by apply lookup_insert_eq.
    assert (clock st2 = clock st + d) as Hclk2.
    { subst st2. simpl. by rewrite Hclk. }
    assert (expired (clock st2) r0 = negb (d <=? ttl * 1000)) as He.
    { unfold expired, r0. cbn [createdAt rttl]. rewrite Hclk2.
      destruct (Z.leb_spec d (ttl * 1000)),
        (Z.gtb_spec (clock st + d) (clock st + ttl * 1000)); simpl;
        first [done | lia]. }
    assert (reservedQty st2 pid size color
            = liveSum (clock st2) (delete rid m)
              + (if d <=? ttl * 1000 then qty else 0)) as Hres.
    { unfold reservedQty. fold key. rewrite Hm.
      rewrite (liveSum_delete (clock st2) m rid r0 Hrid).
      unfold contribution. rewrite He. by destruct (d <=? ttl * 1000). }
    split; [done|]. split.
    { unfold admitted. simpl. rewrite Hclk.
      apply elem_of_app. right. by apply list_elem_of_singleton. }
    exists m. split; [done|]. split; [done|]. split; [done|].
    split; [by rewrite getReservedStock_eq|]. split.
    + eexists. split; [|split; [|split]].
      * unfold fireTimer. simpl.
        rewrite (releaseReservation_found_served rid pid size color st2 m r0);
          [done | done | done |].
        subst st2. rewrite Hf in Hcf. exact Hcf.
      * unfold absent. simpl. apply lookup_withoutReservation.
      * unfold reservedQty. simpl. fold key.
        apply liveSum_withoutReservation.
      * intros Hd. unfold availableStock, totalStock. simpl.
        replace (reservedQty _ pid size color)
          with (liveSum (clock st2) (delete rid m)).
        { rewrite Hres. destruct (Z.leb_spec d (ttl * 1000)); [lia|].
          by rewrite Z.add_0_r. }
        unfold reservedQty. simpl. fold key.
        symmetry. apply liveSum_withoutReservation.
    + split.
      * intros Hd. apply kept_by_cleanup with m; [done | done |].
        rewrite He. by destruct (Z.leb_spec d (ttl * 1000)); [|lia].
      * intros Hd. split.
        -- apply absent_cleanup with m r0; [done | done |].
           rewrite He. by destruct (Z.leb_spec d (ttl * 1000)); [lia|].
        -- apply availableStock_cleanup.
Qed.

Lemma C5_witness :
  let opts := mkOptions None None (Some 60) in
  let st2 := (tick 60000 (reserveStock "p" 3 opts "r1" (shop 5)).2).2 in
  (reserveStock "p" 3 opts "r1" (shop 5)).1
  = Ok (mkReserveResult true "r1" 3 60000)
  ∧ ∃ m, reservations st2 !! "p:any:any" = Some m
         ∧ reservedQty st2 "p" None None
           = liveSum (clock st2) (delete "r1" m) + 3.
Proof.
  split; [reflexivity|].
  destruct (proj2 C5_reserved_is_live_total_and_expiry "p" 3
              (mkOptions None None (Some 60)) "r1" (shop 5)
              (mkReserveResult true "r1" 3 60000) 60000 eq_refl)
    as (_ & _ & m & Hm & _ & Hres & _).
  exists m. split; [exact Hm | exact Hres].
Defined.

Lemma stockBecomes_updated pid size color p old newStock st st' :
  stockOf p size color = Some old →
  products st' = <[pid := updatedProduct p size color newStock]> (products st) →
  stockBecomes pid size color p newStock st'.
Proof.
  intros Hs Hp. unfold stockBecomes, totalStock. rewrite Hp, lookup_insert_eq.
  split; [by apply stockOf_updatedProduct with old|].
  unfold stockOf, updatedProduct in *.
  destruct (truthy size || truthy color); [|done].
  destruct (variants p) as [vs|]; simpl in Hs; [|done].
  destruct (find_variant size color vs) as [v|] eqn:Hv; [|done].
  destruct (find_variant_findIndex size color vs v Hv) as (i & Hi & Hl).
  exists vs, i, v. rewrite Hi, Hl. repeat split; try done.
  simpl. by rewrite sumVariants_sum.
Qed.

(** C4. On a key that resolves in the catalog, with working
    collaborators: [updateStock] with [subtract] sets the stock to
    [max(0, old - quantity)], which is never negative, with [add] to
    [old + quantity] and with [set] to [quantity]; for a size/color key it
    is the stock of that variant that changes, and the product's stock
    becomes the sum of the stocks of all its variants; any other operation
    fails with the invalid-operation error and leaves the catalog as it
    was. *)
Theorem C4_updateStock_operations pid qty size color st p old :
  products st !! pid = Some p →
  stockOf p size color = Some old →
  cacheFault st = false → alertFault st = false →
  (∃ st', updateStock pid qty "subtract" size color st
          = (Ok (mkUpdateResult true old (Z.max 0 (old - qty)) "subtract"), st')
          ∧ 0 ≤ Z.max 0 (old - qty)
          ∧ stockBecomes pid size color p (Z.max 0 (old - qty)) st')
  ∧ (∃ st', updateStock pid qty "add" size color st
            = (Ok (mkUpdateResult true old (old + qty) "add"), st')
            ∧ stockBecomes pid size color p (old + qty) st')
  ∧ (∃ st', updateStock pid qty "set" size color st
            = (Ok (mkUpdateResult true old qty "set"), st')
            ∧ stockBecomes pid size color p qty st')
  ∧ (∀ operation,
       operation ≠ "set" → operation ≠ "add" → operation ≠ "subtract" →
       ∃ st', updateStock pid qty operation size color st
              = (Throw InvalidOperation, st')
              ∧ products st' = products st).
Proof.
  intros Hp Hs Hcf Haf.
  assert (∀ operation newStock,
            applyOperation operation old qty = Some newStock →
            ∃ st', updateStock pid qty operation size color st
                   = (Ok (mkUpdateResult true old newStock operation), st')
                   ∧ stockBecomes pid size color p newStock st') as Hok.
  { intros operation newStock Hop.
    destruct (updateStock_ok pid qty operation size color st p old newStock)
      as (st' & Hu & Hprod & _); try done.
    exists st'. split; [done|]. by apply stockBecomes_updated with old st. }
  split; [|split; [|split]].
  - destruct (Hok "subtract" (Z.max 0 (old - qty)) eq_refl) as (st' & ? & ?).
    exists st'. repeat split; [done | lia | apply H0 | apply H0].
  - by apply Hok.
  - by apply Hok.
  - intros operation Hset Hadd Hsub. eexists. split.
    + apply updateStock_invalid with p old; [done | done |].
      unfold applyOperation.
      destruct (String.eqb_spec operation "set"); [done|].
      destruct (String.eqb_spec operation "add"); [done|].
      by destruct (String.eqb_spec operation "subtract").
    + done.
Qed.

Lemma C4_witness :
  let st := mkState 0 ∅
              {[ "p" := mkProduct true 5
                          (Some [mkVariant "9" "red" (Some 2);
                                 mkVariant "10" "red" (Some 3)]) ]}
              ∅ false noCommand false [] [] [] in
  (updateStock "p" 7 "subtract" (Some "10") None st).1
  = Ok (mkUpdateResult true 3 0 "subtract")
  ∧ products (updateStock "p" 7 "subtract" (Some "10") None st).2 !! "p"
    = Some (mkProduct true 2
              (Some [mkVariant "9" "red" (Some 2);
                     mkVariant "10" "red" (Some 0)])).
Proof.
  intros st.
  destruct (C4_updateStock_operations "p" 7 (Some "10") None st
              (mkProduct true 5
                 (Some [mkVariant "9" "red" (Some 2);
                        mkVariant "10" "red" (Some 3)])) 3
              eq_refl eq_refl eq_refl eq_refl)
    as ((st' & Hu & _ & _ & Hb) & _).
  rewrite Hu. split; [reflexivity|]. simpl in *.
  destruct Hb as (vs & i & v & [= <-] & [= <-] & [= <-] & Hb). exact Hb.
Defined.

(** ** What each call may change *)

Section Effects.
Variables (pid : string) (size color : option string).

Local Abbreviation rkey := (reservationKey pid size color).
Local Abbreviation ckey := (cacheKey pid size color).

Lemma checkStockAlerts_frame p st :
  let st' := (checkStockAlerts pid p size color st).2 in
  reservations st' = reservations st ∧ products st' = products st
  ∧ clock st' = clock st ∧ cache st' = cache st.
Proof.
  unfold checkStockAlerts, emit, listeners, log, bind, modify, ret.
  destruct (_ <=? outOfStockThreshold); [by destruct (_ && _)|].
  destruct (_ <=? lowStockThreshold); [by destruct (_ && _)|done].
Qed.

(** [updateStock] never touches the registry; it either leaves the
    catalog as it was or saves the updated product, and when it returns
    it has deleted the cache entry of the key. *)
Lemma updateStock_effect qty operation st :
  let o := (updateStock pid qty operation size color st).1 in
  let st' := (updateStock pid qty operation size color st).2 in
  reservations st' = reservations st ∧ clock st' = clock st
  ∧ (products st' = products st
     ∨ ∃ p old newStock,
         products st !! pid = Some p ∧ stockOf p size color = Some old
         ∧ applyOperation operation old qty = Some newStock
         ∧ products st'
           = <[pid := updatedProduct p size color newStock]> (products st))
  ∧ (is_ok o = true → cache st' = delete ckey (cache st)).
Proof.
  destruct (products st !! pid) as [p|] eqn:Hp.
  2: { unfold updateStock, tryCatch, bind, findById, gets. rewrite Hp.
       simpl. repeat split; first [done | by left]. }
  destruct (stockOf p size color) as [old|] eqn:Hs.
  2: { unfold updateStock, tryCatch, bind, findById, gets. rewrite Hp.
       unfold stockOf in Hs.
       destruct (truthy size || truthy color); [|done].
       destruct (variants p) as [vs|]; simpl in *;
         [|repeat split; first [done | by left]].
       destruct (findIndex size color vs) as [i|] eqn:Hi;
         [|repeat split; first [done | by left]].
       destruct (findIndex_lookup size color vs i Hi) as (v & _ & Hv & _).
       by rewrite Hv in Hs. }
  destruct (applyOperation operation old qty) as [newStock|] eqn:Hop.
  2: { rewrite (updateStock_invalid _ _ _ _ _ st p old) by done.
       simpl. repeat split; first [done | by left]. }
  destruct (rejects CacheDel st) eqn:Hf.
  - rewrite (updateStock_found_rejected _ _ _ _ _ st p old newStock) by done.
    simpl. repeat split; [|done]. right. by exists p, old, newStock.
  - rewrite (updateStock_found_served _ _ _ _ _ st p old newStock) by done.
    simpl.
    match goal with
    | |- context [checkStockAlerts pid ?q size color ?s] =>
        pose proof (checkStockAlerts_frame q s) as (Hr & Hpr & Hc & Hca);
        destruct (checkStockAlerts pid q size color s) as [[[]|e] s2]
    end; simpl in *; rewrite Hr, Hpr, Hc, ?Hca;
      (repeat split; try done); right; exists p, old, newStock; done.
Qed.

Lemma checkAvailability_effect qty st :
  let st' := (checkAvailability pid qty size color st).2 in
  products st' = products st ∧ clock st' = clock st
  ∧ (reservations st' = reservations st
     ∨ reservations st' = reservations (evictKey rkey st)).
Proof.
  destruct (checkAvailability_frame pid qty size color st) as (Hc & Hp & _).
  simpl. split; [done|]. split; [done|].
  destruct (checkAvailability_outcomes pid size color qty st)
    as [-> | [-> | ->]]; simpl; [| by left | by right].
  destruct (checked_cases pid size color qty st)
    as (a & st0 & -> & [->| [v ->]]); simpl; eauto.
Qed.

(** [reserveStock] leaves the registry as [checkAvailability] left it,
    or with the new entry put into the map of the key. *)
Lemma reserveStock_effect qty ttl rid st :
  let st' := (reserveStock pid qty (mkOptions size color ttl) rid st).2 in
  products st' = products st ∧ clock st' = clock st
  ∧ ∃ regs,
      (regs = reservations st ∨ regs = reservations (evictKey rkey st))
      ∧ (reservations st' = regs
         ∨ reservations st'
           = insertReservation rkey rid
               (mkReservation qty (clock st) (default 900 ttl * 1000)) regs).
Proof.
  pose proof (checkAvailability_effect qty st) as (Hp & Hc & Hr).
  simpl in *.
  destruct (checkAvailability pid qty size color st) as [[a|e] st0] eqn:Hca;
    simpl in *.
  - destruct (available a) eqn:Ha.
    + unfold reserveStock, tryCatch, bind. simpl. rewrite Hca, Ha. simpl.
      unfold cache_del. simpl.
      destruct (rejects CacheDel _); simpl; rewrite Hc;
        (split; [done|]; split; [done|]);
        exists (reservations st0); split; auto.
    + rewrite (reserveStock_reject _ _ _ _ _ a st0) by done. simpl. eauto 10.
  - rewrite (reserveStock_rethrow _ _ _ _ _ e st0) by done. simpl. eauto 10.
Qed.

(** [releaseReservation] leaves the registry as it was or without the
    released entry. *)
Lemma releaseReservation_effect rid st :
  let st' := (releaseReservation rid pid size color st).2 in
  products st' = products st ∧ clock st' = clock st
  ∧ (reservations st' = reservations st
     ∨ ∃ m r, reservations st !! rkey = Some m ∧ m !! rid = Some r
              ∧ reservations st' = withoutReservation rkey rid m (reservations st)).
Proof.
  destruct (reservations st !! rkey) as [m|] eqn:Hm.
  2: { rewrite releaseReservation_missing; [by auto|].
       by rewrite Hm. }
  destruct (m !! rid) as [r|] eqn:Hr.
  2: { rewrite releaseReservation_missing; [by auto|].
       by rewrite Hm. }
  destruct (rejects CacheDel st) eqn:Hf.
  - rewrite (releaseReservation_found_rejected _ _ _ _ st m r) by done.
    simpl. eauto 10.
  - rewrite (releaseReservation_found_served _ _ _ _ st m r) by done.
    simpl. eauto 10.
Qed.

End Effects.

(** ** The availability invariant *)

Section Invariant.
Variables (pid : string) (size color : option string).

Local Abbreviation rkey := (reservationKey pid size color).

Lemma quantitiesNonneg_evictKey st :
  quantitiesNonneg rkey (reservations st) →
  quantitiesNonneg rkey (reservations (evictKey rkey st)).
Proof.
  intros H m rid r. rewrite evictKey_lookup, decide_True by done.
  destruct (reservations st !! rkey) as [m0|] eqn:Hm0; simpl; [|done].
  intros [= <-] [Hr _]%map_lookup_filter_Some. by apply (H m0 rid r).
Qed.

Lemma quantitiesNonneg_insert regs rid r :
  0 ≤ quantity r → quantitiesNonneg rkey regs →
  quantitiesNonneg rkey (insertReservation rkey rid r regs).
Proof.
  intros Hq H m rid' r'. unfold insertReservation.
  rewrite lookup_insert_eq. intros [= <-].
  rewrite lookup_insert. case_decide; [by intros [= <-]|].
  destruct (regs !! rkey) as [m0|] eqn:Hm0; simpl; [|done].
  by apply (H m0).
Qed.

Lemma quantitiesNonneg_without regs m rid :
  regs !! rkey = Some m → quantitiesNonneg rkey regs →
  quantitiesNonneg rkey (withoutReservation rkey rid m regs).
Proof.
  intros Hm H m' rid' r'. unfold withoutReservation.
  destruct (decide _).
  - by rewrite lookup_delete_eq.
  - rewrite lookup_insert_eq. intros [= <-].
    rewrite lookup_delete. case_decide; [done|]. by apply (H m).
Qed.

Lemma quantitiesNonneg_sweep now regs :
  quantitiesNonneg rkey regs →
  quantitiesNonneg rkey (sweepAll now regs).1.
Proof.
  intros H m rid r. rewrite sweepAll_lookup.
  destruct (regs !! rkey) as [m0|] eqn:Hm0; [|done].
  destruct (decide _); [done|].
  intros [= <-] [Hr _]%map_lookup_filter_Some. by apply (H m0 rid r).
Qed.

Lemma applyOperation_nonneg operation old qty newStock :
  0 ≤ old → 0 ≤ qty →
  applyOperation operation old qty = Some newStock → 0 ≤ newStock.
Proof.
  unfold applyOperation. intros Ho Hq.
  destruct (String.eqb operation "set"); [intros [= <-]; lia|].
  destruct (String.eqb operation "add"); [intros [= <-]; lia|].
  destruct (String.eqb operation "subtract"); [intros [= <-]; lia|done].
Qed.

Lemma runCall_invariant c st :
  0 ≤ amount c → invariant pid size color st →
  invariant pid size color (runCall pid size color c st).
Proof.
  intros Hc [Hs Hq]. unfold invariant, stockNonneg, totalStock.
  destruct c as [qty|qty ttl rid|rid|qty operation| |d|fault serves throws];
    simpl in *.
  - destruct (checkAvailability_effect pid size color qty st)
      as (-> & _ & [-> | ->]); split; auto using quantitiesNonneg_evictKey.
  - destruct (reserveStock_effect pid size color qty ttl rid st)
      as (-> & _ & regs & Hregs & Hst'). split; [done|].
    assert (quantitiesNonneg rkey regs).
    { destruct Hregs as [-> | ->]; auto using quantitiesNonneg_evictKey. }
    destruct Hst' as [-> | ->]; [done|].
    by apply quantitiesNonneg_insert.
  - destruct (releaseReservation_effect pid size color rid st)
      as (-> & _ & [-> | (m & r & Hm & _ & ->)]); split; try done.
    by apply quantitiesNonneg_without.
  - destruct (updateStock_effect pid size color qty operation st)
      as (-> & _ & [-> | (p & old & newStock & Hp & Hso & Hop & ->)] & _);
      split; try done.
    intros total. rewrite lookup_insert_eq.
    rewrite (stockOf_updatedProduct size color p old newStock Hso).
    intros [= <-]. apply (applyOperation_nonneg operation old qty); try done.
    apply Hs. unfold totalStock. by rewrite Hp.
  - rewrite cleanup_reservations.
    destruct (cleanup_frame st) as (_ & -> & _).
    split; [done|]. by apply quantitiesNonneg_sweep.
  - done.
  - done.
Qed.

Lemma runCalls_invariant cs st :
  Forall (λ c, 0 ≤ amount c) cs → invariant pid size color st →
  invariant pid size color (runCalls pid size color cs st).
Proof.
  intros Hcs. revert st. induction Hcs as [|c cs Hc _ IH]; intros st Hi.
  - done.
  - simpl. apply IH. by apply runCall_invariant.
Qed.

Lemma invariant_bounds st total :
  invariant pid size color st →
  totalStock st pid size color = Some total →
  0 ≤ Z.max 0 (total - reservedQty st pid size color) ≤ total.
Proof.
  intros [Hs Hq] Ht. pose proof (Hs total Ht).
  assert (0 ≤ reservedQty st pid size color).
  { unfold reservedQty.
    destruct (reservations st !! rkey) as [m|] eqn:Hm; [|lia].
    apply liveSum_nonneg. intros i r. by apply (Hq m). }
  lia.
Qed.

End Invariant.

(** C2, as stated, fails: the service validates none of the quantities
    it is passed.  A [reserveStock] of -2 units is admitted on a stock of
    5 and leaves 7 units available, more than the stock; an [updateStock]
    that sets the stock to -1 leaves 0 units available, more than the
    stock. *)
Lemma C2_negative_quantity_breaks_the_bounds :
  let st1 := runCalls "p" None None [CallReserve (-2) None "r1"] (shop 5) in
  let st2 := runCalls "p" None None [CallUpdate (-1) "set"] (shop 5) in
  (reserveStock "p" (-2) plain "r1" (shop 5)).1
  = Ok (mkReserveResult true "r1" (-2) 900000)
  ∧ totalStock st1 "p" None None = Some 5
  ∧ reservedQty st1 "p" None None = -2
  ∧ availableStock st1 "p" None None = Some 7
  ∧ (updateStock "p" (-1) "set" None None (shop 5)).1
    = Ok (mkUpdateResult true 5 (-1) "set")
  ∧ totalStock st2 "p" None None = Some (-1)
  ∧ availableStock st2 "p" None None = Some 0.
Proof. vm_compute. done. Qed.

(** C2, amended.  Take a key whose stock on record and whose reservations'
    quantities are non-negative (as in a fresh registry), and any sequence
    of [checkAvailability], [reserveStock], [releaseReservation],
    [updateStock], sweeps and passages of time on that key in which the
    quantities passed are non-negative integers, whatever the
    collaborators fail on in between.  After every prefix of
    the sequence, [available = max(0, totalStock - sum of the quantities
    of the non-expired reservations of the key)] is at least 0 and at most
    [totalStock]. *)
Theorem C2_available_within_bounds pid size color cs st0 n total :
  Forall (λ c, 0 ≤ amount c) cs →
  stockNonneg pid size color st0 →
  quantitiesNonneg (reservationKey pid size color) (reservations st0) →
  let st := runCalls pid size color (take n cs) st0 in
  totalStock st pid size color = Some total →
  availableStock st pid size color
  = Some (Z.max 0 (total - reservedQty st pid size color))
  ∧ 0 ≤ Z.max 0 (total - reservedQty st pid size color) ≤ total.
Proof.
  intros Hcs Hs Hq st Ht.
  split; [unfold availableStock; by rewrite Ht|].
  apply invariant_bounds; [|done].
  apply runCalls_invariant; [|done].
  by apply Forall_take.
Qed.

Lemma C2_witness :
  let cs := [CallReserve 3 None "r1"; CallUpdate 4 "subtract";
             CallRelease "r1"; CallUpdate 2 "add"] in
  let st := runCalls "p" None None (take 2 cs) (shop 5) in
  availableStock st "p" None None = Some 0
  ∧ 0 ≤ Z.max 0 (1 - reservedQty st "p" None None) ≤ 1.
Proof.
  intros cs st.
  apply (C2_available_within_bounds "p" None None cs (shop 5) 2 1).
  - repeat constructor; simpl; lia.
  - intros total. vm_compute. intros [= <-]. discriminate.
  - intros m rid r. simpl. by rewrite lookup_empty.
  - reflexivity.
Defined.

(** ** Admission *)

Lemma reserveStock_decision pid qty opts rid st :
  cacheFault st = false →
  (reserveStock pid qty opts rid st).1
  = match decidingStock st pid (opt_size opts) (opt_color opts) with
    | Some s =>
        if s >=? qty then
          Ok (mkReserveResult true rid qty
                (clock st + default 900 (opt_ttl opts) * 1000))
        else Throw (InsufficientStock s qty)
    | None => Throw (InsufficientStock 0 qty)
    end.
Proof.
  intros Hf.
  pose proof (checkAvailability_eq pid (opt_size opts) (opt_color opts) qty st Hf)
    as Hc. simpl in Hc.
  unfold decidingStock, availableStock, totalStock.
  destruct (cacheLookup st _) as [c|].
  { destruct (c >=? qty) eqn:Hq.
    - by rewrite (reserveStock_admit _ _ _ _ _ _ _ Hf Hc).
    - by rewrite (reserveStock_reject _ _ _ _ _ _ _ Hc). }
  destruct (products st !! pid) as [p|];
    [|by rewrite (reserveStock_reject _ _ _ _ _ _ _ Hc)].
  destruct (isActive p);
    [|by rewrite (reserveStock_reject _ _ _ _ _ _ _ Hc)].
  destruct (stockOf p _ _) as [total|];
    [|by rewrite (reserveStock_reject _ _ _ _ _ _ _ Hc)].
  destruct (_ >=? qty) eqn:Hq.
  - by rewrite (reserveStock_admit _ _ _ _ _ _ _ Hf Hc).
  - by rewrite (reserveStock_reject _ _ _ _ _ _ _ Hc).
Qed.

(** C3, as stated, fails.  The plain key of a product is read (stock 2 is
    cached), then the stock of its only variant is set to 0, which brings
    the product's stock to 0 and deletes the cache entry of the variant
    key only.  From that store [reserveStock] of one unit on the plain key
    is admitted on the cached 2; from the same catalog and registry with
    the cache emptied it is rejected with insufficient stock. *)
Lemma C3_cache_decides_admission :
  let st1 := (checkAvailability "p" 1 None None boutique).2 in
  let stB := (updateStock "p" 0 "set" (Some "9") None st1).2 in
  let stA := set_cache (λ _, ∅) stB in
  totalStock stB "p" None None = Some 0
  ∧ (reserveStock "p" 1 plain "r1" stB).1
    = Ok (mkReserveResult true "r1" 1 900000)
  ∧ (reserveStock "p" 1 plain "r1" stA).1 = Throw (InsufficientStock 0 1).
Proof. vm_compute. done. Qed.

(** C3, amended.  The admission decision of [reserveStock] is that of the
    cache-first [checkAvailability]: when the cache answers [c] for the
    key, the call is admitted exactly when [c >= quantity], whatever
    catalog and registry hold; only when the cache has no answer is it
    decided by the available stock computed from catalog and registry.
    Hence two runs with the same arguments on the same catalog and
    registry, with caches that answer the same for the key (two misses in
    particular), end alike. *)
Theorem C3_admission_follows_cache_answer pid qty opts rid st cacheA cacheB :
  cacheFault st = false →
  let size := opt_size opts in
  let color := opt_color opts in
  let stA := set_cache (λ _, cacheA) st in
  let stB := set_cache (λ _, cacheB) st in
  (∀ c, cacheLookup stA (cacheKey pid size color) = Some c →
        is_ok (reserveStock pid qty opts rid stA).1 = (c >=? qty))
  ∧ (cacheLookup stA (cacheKey pid size color) = None →
     is_ok (reserveStock pid qty opts rid stA).1
     = match products st !! pid with
       | Some p =>
           isActive p
           && match availableStock st pid size color with
              | Some a => a >=? qty
              | None => false
              end
       | None => false
       end)
  ∧ (cacheLookup stA (cacheKey pid size color)
     = cacheLookup stB (cacheKey pid size color) →
     (reserveStock pid qty opts rid stA).1
     = (reserveStock pid qty opts rid stB).1).
Proof.
  intros Hf size color stA stB.
  assert (∀ cch, (reserveStock pid qty opts rid (set_cache (λ _, cch) st)).1
      = match decidingStock (set_cache (λ _, cch) st) pid size color with
        | Some s =>
            if s >=? qty then
              Ok (mkReserveResult true rid qty
                    (clock st + default 900 (opt_ttl opts) * 1000))
            else Throw (InsufficientStock s qty)
        | None => Throw (InsufficientStock 0 qty)
        end) as Hdec.
  { intros cch. by rewrite reserveStock_decision. }
  unfold stA, stB. split; [|split].
  - intros c Hc. rewrite Hdec. unfold decidingStock. fold size color.
    rewrite Hc. by destruct (c >=? qty).
  - intros Hc. rewrite Hdec. unfold decidingStock. fold size color.
    rewrite Hc. simpl.
    destruct (products st !! pid) as [p|]; [|done].
    destruct (isActive p); [|done]. simpl.
    change (availableStock (set_cache (λ _, cacheA) st) pid size color)
      with (availableStock st pid size color).
    destruct (availableStock st pid size color) as [a|]; [|done].
    by destruct (a >=? qty).
  - intros Heq. rewrite !Hdec. unfold decidingStock. fold size color.
    rewrite <- Heq. done.
Qed.

Lemma C3_witness :
  cacheFault (shop 5) = false
  ∧ is_ok (reserveStock "p" 3 plain "r1"
             (set_cache (λ _, {[ "inventory:p:any:any" := (2, 1000) ]})
                (shop 5))).1
    = (2 >=? 3).
Proof.
  split; [reflexivity|].
  apply (C3_admission_follows_cache_answer "p" 3 plain "r1" (shop 5)
           {[ "inventory:p:any:any" := (2, 1000) ]} ∅ eq_refl).
  reflexivity.
Defined.

(** ** Reusing and releasing a reservation id *)

Section Ids.
Variables (pid : string) (qty : Z) (opts : options) (rid : string).

Local Abbreviation size := (opt_size opts).
Local Abbreviation color := (opt_color opts).
Local Abbreviation ttl := (default 900 (opt_ttl opts)).
Local Abbreviation rkey := (reservationKey pid size color).
Local Abbreviation ckey := (cacheKey pid size color).

Lemma reservedQty_default st :
  reservedQty st pid size color
  = liveSum (clock st) (default ∅ (reservations st !! rkey)).
Proof.
  unfold reservedQty.
  destruct (reservations st !! rkey); simpl; [done|].
  by rewrite liveSum_empty.
Qed.

(** What [checkAvailability] can have done to the map of the key. *)
Lemma checked_lookup st st0 :
  (st0 = st ∨ ∃ v, st0 = set_cache <[ckey := v]> (evictKey rkey st)) →
  clock st0 = clock st ∧ products st0 = products st
  ∧ cacheFault st0 = cacheFault st
  ∧ reservedQty st0 pid size color = reservedQty st pid size color
  ∧ ∀ i, default ∅ (reservations st0 !! rkey) !! i
         = default ∅ (reservations st !! rkey) !! i
         ∨ (default ∅ (reservations st0 !! rkey) !! i = None
            ∧ ∃ r, default ∅ (reservations st !! rkey) !! i = Some r
                   ∧ expired (clock st) r = true).
Proof.
  intros [-> | [v ->]]; [by auto 10|].
  simpl. rewrite evictKey_clock, evictKey_products, evictKey_cacheFault.
  repeat split; try done.
  - change (reservedQty (set_cache <[ckey := v]> (evictKey rkey st))
              pid size color)
      with (reservedQty (evictKey rkey st) pid size color).
    apply reservedQty_evictKey.
  - intros i. rewrite evictKey_lookup, decide_True by done.
    destruct (reservations st !! rkey) as [m|]; simpl; [|by left].
    destruct (m !! i) as [r|] eqn:Hr.
    + destruct (expired (clock st) r) eqn:He.
      * right. split; [|by eauto].
        apply map_lookup_filter_None. right. intros r' Hr'.
        assert (r' = r) as -> by congruence. unfold live. simpl. congruence.
      * left. by apply map_lookup_filter_Some.
    + left. apply map_lookup_filter_None. by left.
Qed.

Lemma checked_rejects c st st0 :
  (st0 = st ∨ ∃ v, st0 = set_cache <[ckey := v]> (evictKey rkey st)) →
  rejects c st0 = rejects c st.
Proof. intros [-> | [v ->]]; [done|]. apply (rejects_evictKey c). Qed.

Lemma reserveStock_overwrites st res st1 :
  reserveStock pid qty opts rid st = (Ok res, st1) →
  (reservations st1 !! rkey) ≫= (.!! rid)
  = Some (mkReservation qty (clock st) (ttl * 1000)).
Proof.
  intros Hr.
  destruct (reserveStock_ok_inv _ _ _ _ _ _ _ Hr)
    as (Hf & _ & a & st0 & Hc & Ha & -> & Hst0).
  destruct (checked_lookup st st0 Hst0) as (Hclk & _).
  rewrite admitted_lookup. simpl.
  rewrite lookup_insert_eq. by rewrite Hclk.
Qed.

End Ids.

Lemma lookup_default_bind (o : option (gmap string reservation)) (i : string) :
  default ∅ o !! i = o ≫= (.!! i).
Proof. destruct o; simpl; [done | apply lookup_empty]. Qed.

(** C7, as stated, fails: a second [reserveStock] with the id of a live
    reservation of 3 units succeeds, and the registry then holds 1 unit
    under that id. *)
Lemma C7_duplicate_id_is_admitted :
  let st1 := (reserveStock "p" 3 plain "r1" (shop 5)).2 in
  let st2 := (reserveStock "p" 1 plain "r1" st1).2 in
  (reservations st1 !! "p:any:any") ≫= (.!! "r1")
  = Some (mkReservation 3 0 900000)
  ∧ (reserveStock "p" 1 plain "r1" st1).1
    = Ok (mkReserveResult true "r1" 1 900000)
  ∧ (reservations st2 !! "p:any:any") ≫= (.!! "r1")
    = Some (mkReservation 1 0 900000).
Proof. vm_compute. done. Qed.

(** C7, amended.  [reserveStock] does not look for the reservation id in
    the registry.  Called with an id that already exists on the key (and
    a working cache), it is admitted or rejected by the availability check
    alone, the only failure being insufficient stock; when it is admitted,
    the entry of that id is overwritten with the new quantity, creation
    instant and ttl; when it is rejected, the existing entry stays as it
    is, unless it had expired and the check evicted it. *)
Theorem C7_existing_id_is_overwritten pid qty opts rid st m old :
  cacheFault st = false →
  let size := opt_size opts in
  let color := opt_color opts in
  let key := reservationKey pid size color in
  reservations st !! key = Some m → m !! rid = Some old →
  let o := (reserveStock pid qty opts rid st).1 in
  let st' := (reserveStock pid qty opts rid st).2 in
  o = match decidingStock st pid size color with
      | Some s =>
          if s >=? qty then
            Ok (mkReserveResult true rid qty
                  (clock st + default 900 (opt_ttl opts) * 1000))
          else Throw (InsufficientStock s qty)
      | None => Throw (InsufficientStock 0 qty)
      end
  ∧ (is_ok o = true →
     (reservations st' !! key) ≫= (.!! rid)
     = Some (mkReservation qty (clock st) (default 900 (opt_ttl opts) * 1000)))
  ∧ (is_ok o = false →
     (reservations st' !! key) ≫= (.!! rid) = Some old
     ∨ (expired (clock st) old = true ∧ absent key rid st')).
Proof.
  intros Hf size color key Hm Hold o st'.
  split; [by apply reserveStock_decision|].
  unfold o, st'.
  destruct (reserveStock pid qty opts rid st) as [[res|e] s1] eqn:Hr; simpl.
  - split; [|done]. intros _. by apply (reserveStock_overwrites _ _ _ _ _ _ _ Hr).
  - split; [done|]. intros _.
    destruct (checkAvailability_cases pid qty opts st Hf)
      as (a & st0 & Hc & Hst0).
    destruct (available a) eqn:Ha.
    { by rewrite (reserveStock_admit _ _ _ _ _ a st0) in Hr. }
    rewrite (reserveStock_reject _ _ _ _ _ a st0) in Hr by done.
    injection Hr as _ <-. simpl.
    destruct (checked_lookup pid opts st st0 Hst0) as (_ & _ & _ & _ & Hlook).
    unfold absent. simpl. fold size color key in Hlook.
    specialize (Hlook rid). rewrite !lookup_default_bind in Hlook.
    rewrite Hm in Hlook. simpl in Hlook. rewrite Hold in Hlook.
    destruct Hlook as [-> | [-> (r & [= <-] & He)]]; auto.
Qed.

Lemma C7_witness :
  let st1 := (reserveStock "p" 3 plain "r1" (shop 5)).2 in
  cacheFault st1 = false
  ∧ (reservations (reserveStock "p" 1 plain "r1" st1).2 !! "p:any:any")
      ≫= (.!! "r1")
    = Some (mkReservation 1 0 900000).
Proof.
  intros st1. split; [reflexivity|].
  apply (C7_existing_id_is_overwritten "p" 1 plain "r1" st1
           {[ "r1" := mkReservation 3 0 900000 ]} (mkReservation 3 0 900000)
           eq_refl);
    reflexivity.
Defined.

(** C8, as stated, fails: with 2 units held under an id, a successful
    [reserveStock] of 1 unit under the same id followed at once by its
    release returns 1 and leaves 5 units available, where 3 were available
    before the call. *)
Lemma C8_release_after_overwrite :
  let st := (reserveStock "p" 2 plain "r1" (shop 5)).2 in
  let st1 := (reserveStock "p" 1 plain "r1" st).2 in
  let st2 := (releaseReservation "r1" "p" None None st1).2 in
  is_ok (reserveStock "p" 1 plain "r1" st).1 = true
  ∧ (releaseReservation "r1" "p" None None st1).1 = Ok (Released 1)
  ∧ availableStock st "p" None None = Some 3
  ∧ availableStock st2 "p" None None = Some 5.
Proof. vm_compute. done. Qed.

(** C8, amended.  For every successful [reserveStock] of quantity [q]
    under a reservation id that the key did not hold already, an
    immediately following [releaseReservation] of that id returns [q] and
    leaves the available stock of the key exactly what it was before the
    reservation. *)
Theorem C8_reserve_release_round_trip pid qty opts rid st res st1 :
  let size := opt_size opts in
  let color := opt_color opts in
  reserveStock pid qty opts rid st = (Ok res, st1) →
  absent (reservationKey pid size color) rid st →
  ∃ st2,
    releaseReservation rid pid size color st1 = (Ok (Released qty), st2)
    ∧ rr_quantity res = qty
    ∧ availableStock st2 pid size color = availableStock st pid size color.
Proof.
  intros size color Hr Habs. subst size color.
  destruct (reserveStock_ok_inv _ _ _ _ _ _ _ Hr)
    as (Hf & -> & a & st0 & Hc & Ha & -> & Hst0).
  destruct (checked_lookup pid opts st st0 Hst0)
    as (Hclk & Hprod & Hcf & Hres & Hlook).
  set (key := reservationKey pid (opt_size opts) (opt_color opts)) in *.
  set (r0 := mkReservation qty (clock st0) (default 900 (opt_ttl opts) * 1000)).
  set (m0 := default ∅ (reservations st0 !! key)).
  assert (m0 !! rid = None) as Hfresh.
  { assert (default ∅ (reservations st !! key) !! rid = None) as Hn.
    { unfold absent in Habs.
      destruct (reservations st !! key); simpl in *; [done|].
      apply lookup_empty. }
    destruct (Hlook rid) as [Heq | [Heq _]]; unfold m0;
      [by rewrite Heq | done]. }
  eexists. split; [|split; [done|]].
  - rewrite (releaseReservation_found_served rid pid (opt_size opts)
               (opt_color opts) _ (<[rid := r0]> m0) r0);
      [done | apply admitted_lookup | apply lookup_insert_eq |].
    change (rejects CacheDel st0 = false).
    by rewrite (checked_rejects pid opts CacheDel st st0 Hst0).
  - unfold availableStock, totalStock. simpl. rewrite Hprod.
    destruct (products st !! pid) as [p|]; [|done].
    destruct (stockOf p (opt_size opts) (opt_color opts)); [|done].
    do 3 f_equal.
    rewrite <- Hres. rewrite (reservedQty_default pid opts st0).
    unfold reservedQty. simpl.
    rewrite liveSum_withoutReservation.
    fold key m0. rewrite delete_insert_eq, delete_id by done. done.
Qed.

Lemma C8_witness :
  ∃ st2,
    releaseReservation "r1" "p" None None
      (reserveStock "p" 3 plain "r1" (shop 5)).2
    = (Ok (Released 3), st2)
    ∧ rr_quantity (mkReserveResult true "r1" 3 900000) = 3
    ∧ availableStock st2 "p" None None
      = availableStock (shop 5) "p" None None.
Proof.
  apply (C8_reserve_release_round_trip "p" 3 plain "r1" (shop 5)
           (mkReserveResult true "r1" 3 900000)
           (reserveStock "p" 3 plain "r1" (shop 5)).2);
    reflexivity.
Defined.

(** ** Cached answers *)

(** On a miss the four fields are those of the available stock: the
    comparison, the stock, the request and the smaller of the two. *)
Lemma checkAvailability_miss pid qty size color st p total :
  cacheFault st = false →
  cacheLookup st (cacheKey pid size color) = None →
  products st !! pid = Some p → isActive p = true →
  stockOf p size color = Some total →
  let a := Z.max 0 (total - reservedQty st pid size color) in
  (checkAvailability pid qty size color st).1
  = Ok (mkAvailability (a >=? qty) a qty (Z.min a qty) None
          (Some (reservedQty st pid size color))).
Proof.
  intros Hf Hc Hp Ha Hs. rewrite checkAvailability_eq by done.
  by rewrite Hc, Hp, Ha, Hs.
Qed.

(** On a hit [canFulfill] is the cached stock itself. *)
Lemma checkAvailability_hit pid qty size color st c :
  cacheFault st = false →
  cacheLookup st (cacheKey pid size color) = Some c →
  checkAvailability pid qty size color st
  = (Ok (mkAvailability (c >=? qty) c qty c None None), st).
Proof.
  intros Hf Hc. rewrite checkAvailability_eq by done. by rewrite Hc.
Qed.

(** C9, on the code: with stock 5 and nothing reserved, the first
    [checkAvailability] of 3 units (a miss) answers [canFulfill = 3]; the
    same call repeated at once is served from the cache and answers
    [canFulfill = 5], not [min(5, 3)]. *)
Theorem C9_cached_canFulfill_exceeds_request :
  let st1 := (checkAvailability "p" 3 None None (shop 5)).2 in
  (checkAvailability "p" 3 None None (shop 5)).1
  = Ok (mkAvailability true 5 3 3 None (Some 0))
  ∧ cacheLookup st1 "inventory:p:any:any" = Some 5
  ∧ (checkAvailability "p" 3 None None st1).1
    = Ok (mkAvailability true 5 3 5 None None)
  ∧ Z.min 5 3 = 3.
Proof. vm_compute. done. Qed.

(** ** Cache invalidation *)

Lemma reserveStock_invalidates pid qty opts rid st res st1 :
  reserveStock pid qty opts rid st = (Ok res, st1) →
  cache st1 !! cacheKey pid (opt_size opts) (opt_color opts) = None.
Proof.
  intros Hr.
  destruct (reserveStock_ok_inv _ _ _ _ _ _ _ Hr)
    as (_ & _ & a & st0 & _ & _ & -> & _).
  unfold admitted. simpl. apply lookup_delete_eq.
Qed.

Lemma releaseReservation_invalidates rid pid size color st q st1 :
  releaseReservation rid pid size color st = (Ok (Released q), st1) →
  cache st1 !! cacheKey pid size color = None.
Proof.
  intros Hr.
  destruct (reservations st !! reservationKey pid size color) as [m|] eqn:Hm.
  2: { rewrite releaseReservation_missing in Hr; [done|]. by rewrite Hm. }
  destruct (m !! rid) as [r|] eqn:Hrid.
  2: { rewrite releaseReservation_missing in Hr; [done|]. by rewrite Hm. }
  destruct (rejects CacheDel st) eqn:Hf.
  - by rewrite (releaseReservation_found_rejected _ _ _ _ st m r) in Hr.
  - rewrite (releaseReservation_found_served _ _ _ _ st m r) in Hr by done.
    injection Hr as _ <-. simpl. apply lookup_delete_eq.
Qed.

Lemma updateStock_invalidates pid qty operation size color st res st1 :
  updateStock pid qty operation size color st = (Ok res, st1) →
  cache st1 !! cacheKey pid size color = None.
Proof.
  intros Hu.
  destruct (updateStock_effect pid size color qty operation st)
    as (_ & _ & _ & Hc).
  rewrite Hu in Hc. simpl in Hc. rewrite Hc by done. apply lookup_delete_eq.
Qed.

(** C6, on the code: 3 of 5 units are reserved for 60 seconds and the
    availability is read, which caches 2.  After 61 seconds, the timer's
    callback not having run, the sweep removes the expired reservation.
    The available stock is 5, the sweep has left the cache as it was, and
    the next read still answers 2.  Likewise a stock mutation on a variant
    key changes the stock of the plain key of the product and leaves the
    cache entry of the plain key in place: after the only variant is set
    to 0 the plain key has 0 available and a read still answers 2. *)
Theorem C6_sweep_leaves_stale_cache :
  let st1 := (reserveStock "p" 3 (mkOptions None None (Some 60)) "r1"
                (shop 5)).2 in
  let st2 := (checkAvailability "p" 1 None None st1).2 in
  let st3 := (tick 61000 st2).2 in
  let st4 := (cleanupExpiredReservations st3).2 in
  let sv1 := (checkAvailability "p" 1 None None boutique).2 in
  let sv2 := (updateStock "p" 0 "set" (Some "9") None sv1).2 in
  (cache st1 !! "inventory:p:any:any" = None
   ∧ reservations st3 !! "p:any:any"
     = Some {[ "r1" := mkReservation 3 0 60000 ]}
   ∧ reservations st4 !! "p:any:any" = None
   ∧ cache st4 = cache st3
   ∧ availableStock st4 "p" None None = Some 5
   ∧ (checkAvailability "p" 1 None None st4).1
     = Ok (mkAvailability true 2 1 2 None None))
  ∧ (availableStock sv1 "p" None None = Some 2
     ∧ availableStock sv2 "p" None None = Some 0
     ∧ cache sv2 !! "inventory:p:9:any" = None
     ∧ cache sv2 !! "inventory:p:any:any" = Some (2, 300000)
     ∧ (checkAvailability "p" 1 None None sv2).1
       = Ok (mkAvailability true 2 1 2 None None)).
Proof.
  repeat split; vm_compute; done.
Qed.

(** ** Failing collaborators *)

Section Faults.
Variables (pid : string) (size color : option string).

Local Abbreviation rkey := (reservationKey pid size color).
Local Abbreviation ckey := (cacheKey pid size color).

Lemma reserveStock_rejected qty ttl rid st :
  rejects CacheGet st = true →
  reserveStock pid qty (mkOptions size color ttl) rid st
  = (Throw CacheError,
     add_log (ErrorReserving CacheError)
       (add_log (ErrorChecking CacheError) st)).
Proof.
  intros Hf. apply reserveStock_rethrow. simpl.
  by apply checkAvailability_rejected.
Qed.

(** A miss on a key that resolves, with [setex] rejected. *)
Lemma checkAvailability_setex_rejected qty st p total :
  rejects CacheGet st = false → rejects CacheSetex st = true →
  cacheLookup st ckey = None →
  products st !! pid = Some p → isActive p = true →
  stockOf p size color = Some total →
  checkAvailability pid qty size color st
  = (Throw CacheError,
     add_log (ErrorChecking CacheError) (evictKey rkey st)).
Proof.
  intros Hg Hs Hc Hp Ha Ht.
  rewrite checkAvailability_unwritten by done.
  unfold checked. by rewrite Hc, Hp, Ha, Ht.
Qed.

(** The events and the lines of [checkStockAlerts], on a product where
    the key resolves to [s]. *)
Lemma checkStockAlerts_alert p s st :
  stockOf p size color = Some s →
  checkStockAlerts pid p size color st
  = (if (s <=? lowStockThreshold) && alertFault st
     then Throw SinkError else Ok tt,
     mkState (clock st) (reservations st) (products st) (cache st)
       (cacheFault st) (cacheServes st) (alertFault st) (timers st)
       (emitted st ++ alertFor pid s) (logged st ++ alertLog pid s)).
Proof.
  intros Hs. rewrite (checkStockAlerts_eq pid size color p s) by done.
  unfold alertFor, alertLog, outOfStockThreshold, lowStockThreshold.
  destruct (Z.leb_spec s 0), (Z.leb_spec s 10); try lia;
    unfold emit, listeners, log, bind, modify, add_event, add_log; simpl;
    [by destruct (alertFault st) | by destruct (alertFault st) |].
  rewrite !app_nil_r. by destruct st.
Qed.

Lemma updateStock_alertFault qty operation st p old newStock :
  products st !! pid = Some p →
  stockOf p size color = Some old →
  applyOperation operation old qty = Some newStock →
  rejects CacheDel st = false → alertFault st = true →
  newStock ≤ lowStockThreshold →
  ∃ st',
    updateStock pid qty operation size color st = (Throw SinkError, st')
    ∧ products st'
      = <[pid := updatedProduct p size color newStock]> (products st)
    ∧ cache st' = delete ckey (cache st)
    ∧ emitted st' = (emitted st ++ alertFor pid newStock)%list
    ∧ logged st'
      = (logged st ++ [InfoStockUpdated pid old newStock]
         ++ alertLog pid newStock ++ [ErrorUpdating SinkError])%list.
Proof.
  intros Hp Hs Hop Hf Ha Hlow.
  rewrite (updateStock_found_served _ _ _ _ _ st p old newStock) by done.
  simpl.
  rewrite (checkStockAlerts_alert _ newStock)
    by (by apply stockOf_updatedProduct with old).
  simpl. rewrite Ha.
  destruct (Z.leb_spec newStock lowStockThreshold); [|lia]. simpl.
  eexists. split; [done|]. simpl. repeat split.
  by rewrite <- !app_assoc.
Qed.

End Faults.

(** C10, as stated, fails: with the cache down, [checkAvailability],
    [reserveStock] and [updateStock] end with the cache's error, and with
    a listener that throws, an [updateStock] that brings the stock to the
    alert range ends with the listener's error.  With a cache that
    serves [get] and [setex] and rejects [del], [reserveStock] ends with
    the cache's error after it has put the reservation into the
    registry. *)
Lemma C10_collaborator_failure_fails_the_call :
  (checkAvailability "p" 1 None None outage).1 = Throw CacheError
  ∧ (reserveStock "p" 1 plain "r1" outage).1 = Throw CacheError
  ∧ (updateStock "p" 7 "set" None None outage).1 = Throw CacheError
  ∧ (updateStock "p" 7 "set" None None brokenSink).1 = Throw SinkError
  ∧ (reserveStock "p" 1 plain "r1" delRejected).1 = Throw CacheError
  ∧ (reservations (reserveStock "p" 1 plain "r1" delRejected).2
       !! "p:any:any") ≫= (.!! "r1")
    = Some (mkReservation 1 0 900000).
Proof. vm_compute. done. Qed.

(** C10, amended.  A failure of the cache collaborator or of the alert
    listener is logged and thrown again: the call that met it fails with
    that error, the last log entry being the error of the call, and what
    the call had done before stays done.

    - [cache.get] rejected: [checkAvailability] and [reserveStock] fail
      and leave the store as it was, the log apart.
    - [cache.setex] rejected (after a miss on a key that resolves in the
      catalog): [checkAvailability] and [reserveStock] fail after the
      lazy eviction of the expired reservations of the key; nothing is
      reserved.
    - [cache.del] rejected: a [reserveStock] whose check has admitted
      the quantity fails after it has put the reservation into the
      registry and set its timer, so the reservation holds its quantity
      although the caller got an error, and the cache keeps the entry the
      check wrote; [releaseReservation] of an existing reservation has
      removed it; [updateStock] has saved the new stock.
    - [releaseReservation] of a reservation that is not there calls no
      collaborator and answers that it was not found.
    - A listener that throws: an [updateStock] whose new stock is at or
      below the low-stock threshold fails after it has saved the stock,
      deleted the cache entry and emitted the alert, which the listener
      of the module has logged. *)
Theorem C10_collaborator_failure_is_rethrown pid size color st :
  let key := reservationKey pid size color in
  let ckey := cacheKey pid size color in
  (rejects CacheGet st = true →
     (∀ qty,
        checkAvailability pid qty size color st
        = (Throw CacheError, add_log (ErrorChecking CacheError) st))
     ∧ (∀ qty ttl rid,
          reserveStock pid qty (mkOptions size color ttl) rid st
          = (Throw CacheError,
             add_log (ErrorReserving CacheError)
               (add_log (ErrorChecking CacheError) st))))
  ∧ (rejects CacheGet st = false → rejects CacheSetex st = true →
     ∀ p total,
       cacheLookup st ckey = None →
       products st !! pid = Some p → isActive p = true →
       stockOf p size color = Some total →
       (∀ qty,
          checkAvailability pid qty size color st
          = (Throw CacheError,
             add_log (ErrorChecking CacheError) (evictKey key st)))
       ∧ (∀ qty ttl rid,
            reserveStock pid qty (mkOptions size color ttl) rid st
            = (Throw CacheError,
               add_log (ErrorReserving CacheError)
                 (add_log (ErrorChecking CacheError) (evictKey key st)))))
  ∧ (rejects CacheDel st = true →
     (∀ qty ttl rid a st0,
        checkAvailability pid qty size color st = (Ok a, st0) →
        available a = true →
        ∃ st', reserveStock pid qty (mkOptions size color ttl) rid st
               = (Throw CacheError, st')
               ∧ (reservations st' !! key) ≫= (.!! rid)
                 = Some (mkReservation qty (clock st) (default 900 ttl * 1000))
               ∧ mkTimer (clock st + timerDelay (default 900 ttl * 1000))
                   rid pid size color ∈ timers st'
               ∧ cache st' = cache st0
               ∧ last (logged st') = Some (ErrorReserving CacheError))
     ∧ (∀ rid m r,
          reservations st !! key = Some m → m !! rid = Some r →
          ∃ st', releaseReservation rid pid size color st
                 = (Throw CacheError, st')
                 ∧ absent key rid st'
                 ∧ last (logged st') = Some (ErrorReleasing CacheError))
     ∧ (∀ qty operation p old newStock,
          products st !! pid = Some p → stockOf p size color = Some old →
          applyOperation operation old qty = Some newStock →
          ∃ st', updateStock pid qty operation size color st
                 = (Throw CacheError, st')
                 ∧ totalStock st' pid size color = Some newStock
                 ∧ cache st' = cache st
                 ∧ last (logged st') = Some (ErrorUpdating CacheError)))
  ∧ (∀ rid,
       absent key rid st →
       releaseReservation rid pid size color st
       = (Ok ReservationNotFound, st))
  ∧ (rejects CacheDel st = false → alertFault st = true →
     ∀ qty operation p old newStock,
       products st !! pid = Some p → stockOf p size color = Some old →
       applyOperation operation old qty = Some newStock →
       newStock ≤ lowStockThreshold →
       ∃ st', updateStock pid qty operation size color st
              = (Throw SinkError, st')
              ∧ totalStock st' pid size color = Some newStock
              ∧ cache st' !! ckey = None
              ∧ emitted st' = (emitted st ++ alertFor pid newStock)%list
              ∧ logged st'
                = (logged st ++ [InfoStockUpdated pid old newStock]
                   ++ alertLog pid newStock
                   ++ [ErrorUpdating SinkError])%list).
Proof.
  intros key ckey. split; [|split; [|split; [|split]]].
  - intros Hg. split.
    + intros qty. by apply checkAvailability_rejected.
    + intros qty ttl rid. by apply reserveStock_rejected.
  - intros Hg Hs p total Hc Hp Ha Ht. split.
    + intros qty. by apply checkAvailability_setex_rejected with p total.
    + intros qty ttl rid. apply reserveStock_rethrow. simpl.
      by apply checkAvailability_setex_rejected with p total.
  - intros Hd. split; [|split].
    + intros qty ttl rid a st0 Hc Ha.
      pose proof (checkAvailability_frame pid qty size color st)
        as (Hclk & _).
      rewrite Hc in Hclk. simpl in Hclk.
      eexists. split; [|split; [|split; [|split]]].
      * by apply (reserveStock_admit_rejected pid qty
                    (mkOptions size color ttl) rid st a st0).
      * simpl. unfold insertReservation. rewrite lookup_insert_eq. simpl.
        rewrite lookup_insert_eq. by rewrite Hclk.
      * simpl. rewrite Hclk. apply elem_of_app. right.
        by apply list_elem_of_singleton.
      * done.
      * simpl. apply last_snoc.
    + intros rid m r Hm Hr. eexists. split; [|split].
      * by apply (releaseReservation_found_rejected rid pid size color st m r).
      * unfold absent. simpl. apply lookup_withoutReservation.
      * simpl. apply last_snoc.
    + intros qty operation p old newStock Hp Hs Hop. eexists.
      split; [|split; [|split]].
      * by apply (updateStock_found_rejected pid qty operation size color st
                    p old newStock).
      * unfold totalStock. simpl. rewrite lookup_insert_eq.
        by apply stockOf_updatedProduct with old.
      * done.
      * simpl. apply last_snoc.
  - intros rid Habs. by apply releaseReservation_missing.
  - intros Hf Ha qty operation p old newStock Hp Hs Hop Hlow.
    destruct (updateStock_alertFault pid size color qty operation st p old
                newStock Hp Hs Hop Hf Ha Hlow)
      as (st' & Hu & Hprod & Hcache & Hem & Hlog).
    exists st'. split; [exact Hu|]. split; [|split; [|split]].
    + unfold totalStock. rewrite Hprod, lookup_insert_eq.
      by apply stockOf_updatedProduct with old.
    + rewrite Hcache. apply lookup_delete_eq.
    + done.
    + done.
Qed.

Lemma C10_witness :
  rejects CacheDel delRejected = true
  ∧ checkAvailability "p" 1 None None delRejected
    = (Ok (mkAvailability true 5 1 1 None (Some 0)),
       set_cache <[ "inventory:p:any:any" := (5, 300000) ]> delRejected)
  ∧ ∃ st', reserveStock "p" 1 plain "r1" delRejected
           = (Throw CacheError, st')
           ∧ (reservations st' !! "p:any:any") ≫= (.!! "r1")
             = Some (mkReservation 1 0 900000)
           ∧ last (logged st') = Some (ErrorReserving CacheError).
Proof.
  split; [reflexivity|]. split; [reflexivity|].
  destruct (proj1 (proj1 (proj2 (proj2
              (C10_collaborator_failure_is_rethrown "p" None None
                 delRejected))) eq_refl)
              1 None "r1" (mkAvailability true 5 1 1 None (Some 0))
              (set_cache <[ "inventory:p:any:any" := (5, 300000) ]>
                 delRejected) eq_refl eq_refl)
    as (st' & Hr & Hres & _ & _ & Hlog).
  exists st'. split; [exact Hr|]. split; [exact Hres | exact Hlog].
Defined.

(** ** Calls in turn *)

(** A log entry changes nothing that availability depends on. *)
Lemma reservedQty_add_log l st pid size color :
  reservedQty (add_log l st) pid size color = reservedQty st pid size color.
Proof. done. Qed.

Lemma cacheLookup_add_log l st key :
  cacheLookup (add_log l st) key = cacheLookup st key.
Proof. done. Qed.

Section InTurn.
Variables (pid : string) (opts : options) (p : product) (S0 : Z).

Local Abbreviation size := (opt_size opts).
Local Abbreviation color := (opt_color opts).
Local Abbreviation ttl := (default 900 (opt_ttl opts)).
Local Abbreviation rkey := (reservationKey pid size color).
Local Abbreviation ckey := (cacheKey pid size color).

Hypothesis Hactive : isActive p = true.
Hypothesis Hstock : stockOf p size color = Some S0.
Hypothesis Httl : 0 ≤ ttl.

Lemma inTurn_deciding todo n st :
  inTurn pid opts p S0 todo n st → decidingStock st pid size color = Some (S0 - n).
Proof.
  intros (Hf & Hp & Hn & Hb & Hc & _). unfold decidingStock.
  destruct Hc as [-> | ->]; [|done].
  rewrite Hp, Hactive. unfold availableStock, totalStock.
  rewrite Hp, Hstock, Hn. f_equal. lia.
Qed.

Lemma absent_checked st st0 rid :
  (st0 = st ∨ ∃ v, st0 = set_cache <[ckey := v]> (evictKey rkey st)) →
  absent rkey rid st → absent rkey rid st0.
Proof.
  intros Hst0 Ha.
  destruct (checked_lookup pid opts st st0 Hst0) as (_ & _ & _ & _ & Hlook).
  specialize (Hlook rid).
  rewrite !lookup_default_bind in Hlook. unfold absent in *.
  rewrite Ha in Hlook. by destruct Hlook as [-> | [-> _]].
Qed.

Lemma inTurn_admit rid todo n st :
  inTurn pid opts p S0 (rid :: todo) n st → n < S0 → rid ∉ todo →
  ∃ res st', reserveStock pid 1 opts rid st = (Ok res, st')
             ∧ inTurn pid opts p S0 todo (n + 1) st'.
Proof.
  intros Hin Hlt Hnot.
  pose proof (inTurn_deciding _ _ _ Hin) as Hd.
  destruct Hin as (Hf & Hp & Hn & Hb & Hc & Habs).
  pose proof (reserveStock_decision pid 1 opts rid st Hf) as Hdec.
  rewrite Hd in Hdec.
  destruct (Z.geb_spec (S0 - n) 1) as [_|]; [|lia].
  destruct (reserveStock pid 1 opts rid st) as [o st'] eqn:Hr.
  simpl in Hdec. subst o. do 2 eexists. split; [done|].
  destruct (reserveStock_ok_inv _ _ _ _ _ _ _ Hr)
    as (_ & _ & a & st0 & _ & _ & -> & Hst0).
  destruct (checked_lookup pid opts st st0 Hst0)
    as (Hclk & Hprod & Hcf & Hres & _).
  apply Forall_cons in Habs as [Hrid Htodo].
  pose proof (absent_checked st st0 rid Hst0 Hrid) as Hrid0.
  unfold inTurn. simpl. rewrite Hcf, Hprod.
  split; [done|]. split; [done|]. split; [|split; [lia|split]].
  - unfold reservedQty. simpl. unfold insertReservation.
    rewrite lookup_insert_eq.
    rewrite liveSum_insert.
    2: { unfold absent in Hrid0. by rewrite lookup_default_bind. }
    rewrite <- reservedQty_default, Hres, Hn.
    unfold contribution, expired. simpl.
    destruct (Z.gtb_spec (clock st0)
                (clock st0 + default 900 (opt_ttl opts) * 1000)); lia.
  - left. unfold cacheLookup. simpl.
    by rewrite lookup_delete_eq.
  - apply Forall_forall. intros rid' Hin'.
    assert (rid' ≠ rid) by (intros ->; done).
    rewrite Forall_forall in Htodo.
    pose proof (absent_checked st st0 rid' Hst0 (Htodo rid' Hin')) as Ha0.
    unfold absent in *. simpl. unfold insertReservation.
    rewrite lookup_insert_eq. simpl.
    rewrite lookup_insert_ne by done. by rewrite lookup_default_bind.
Qed.

Lemma inTurn_reject rid todo st :
  inTurn pid opts p S0 (rid :: todo) S0 st →
  ∃ st', reserveStock pid 1 opts rid st = (Throw (InsufficientStock 0 1), st')
         ∧ inTurn pid opts p S0 todo S0 st'.
Proof.
  intros (Hf & Hp & Hn & Hb & Hc & Habs).
  apply Forall_cons in Habs as [_ Htodo].
  pose proof (checkAvailability_eq pid size color 1 st Hf) as Hca.
  simpl in Hca.
  destruct Hc as [Hc | Hc]; rewrite Hc in Hca.
  - rewrite Hp, Hactive, Hstock, Hn in Hca.
    replace (Z.max 0 (S0 - S0)) with 0 in Hca by lia.
    eexists. split.
    { rewrite (reserveStock_reject _ _ _ _ _ _ _ Hca); done. }
    unfold inTurn. simpl.
    rewrite evictKey_cacheFault, evictKey_products.
    split; [done|]. split; [done|]. split; [|split; [lia|split]].
    + change (reservedQty (evictKey
                (reservationKey pid size color) st) pid size color = S0).
      by rewrite reservedQty_evictKey.
    + right. unfold cacheLookup. simpl.
      rewrite lookup_insert_eq, evictKey_clock.
      destruct (Z.ltb_spec (clock st) (clock st + 300 * 1000)); [|lia].
      f_equal. lia.
    + apply Forall_forall. intros rid' Hin'. rewrite Forall_forall in Htodo.
      apply (absent_checked st
               (set_cache <[ckey := (0, clock st + 300 * 1000)]>
                  (evictKey rkey st)) rid'); eauto.
  - replace (S0 - S0) with 0 in * by lia.
    eexists. split.
    { rewrite (reserveStock_reject _ _ _ _ _ _ _ Hca); done. }
    unfold inTurn. simpl.
    rewrite reservedQty_add_log, cacheLookup_add_log, Hc.
    repeat split; try done; try lia. right. f_equal. lia.
Qed.

Lemma reserveEach_inTurn rids n st :
  NoDup rids → inTurn pid opts p S0 rids n st →
  let os := (reserveEach pid 1 opts rids st).1 in
  successes os = Z.min (Z.of_nat (length rids)) (S0 - n)
  ∧ Forall (λ o, is_ok o = true ∨ o = Throw (InsufficientStock 0 1)) os.
Proof.
  intros Hnd. revert n st.
  induction Hnd as [|rid rids Hnot Hnd IH]; intros n st Hin.
  - simpl. unfold successes. simpl.
    destruct Hin as (_ & _ & _ & Hb & _). split; [lia | constructor].
  - assert (0 ≤ n ≤ S0) as Hb by apply Hin.
    destruct (decide (n < S0)) as [Hlt|Hge].
    + destruct (inTurn_admit rid rids n st Hin Hlt Hnot)
        as (res & st' & Hr & Hin').
      specialize (IH (n + 1) st' Hin'). simpl in *. rewrite Hr.
      destruct (reserveEach pid 1 opts rids st') as [os st2]. simpl in *.
      destruct IH as [Hcount Hall]. split.
      * unfold successes in *. rewrite filter_cons_True by done.
        simpl length. lia.
      * constructor; [by left | done].
    + assert (n = S0) as -> by lia.
      destruct (inTurn_reject rid rids st Hin) as (st' & Hr & Hin').
      specialize (IH S0 st' Hin'). simpl in *. rewrite Hr.
      destruct (reserveEach pid 1 opts rids st') as [os st2]. simpl in *.
      destruct IH as [Hcount Hall]. split.
      * unfold successes in *. rewrite filter_cons_False by done.
        lia.
      * constructor; [by right | done].
Qed.

End InTurn.

(** C1, as stated, fails: the availability check and the insertion of
    [reserveStock] are separated by [await]s and no lock is held.  Two
    calls of one unit each on a stock of 1, resumed in alternation, both
    pass the check before either inserts, and both succeed; resumed one
    after the other, the second is rejected. *)
Lemma C1_overlapping_calls_oversell :
  let pool := [start "p" 1 plain "a"; start "p" 1 plain "b"] in
  let alternating := runSchedule [0; 1; 0; 1; 0; 1; 0; 1; 0; 1]%nat pool (shop 1) in
  let inTurns := runSchedule [0; 0; 0; 0; 0; 1; 1; 1; 1; 1]%nat pool (shop 1) in
  succeeded <$> alternating.1 = [true; true]
  ∧ totalStock alternating.2 "p" None None = Some 1
  ∧ reservedQty alternating.2 "p" None None = 2
  ∧ k_point <$> inTurns.1
    = [Finished (Ok (mkReserveResult true "a" 1 900000));
       Finished (Throw (InsufficientStock 0 1))].
Proof. vm_compute. done. Qed.

(** C1, amended.  When K calls of [reserveStock], each of 1 unit, with
    distinct reservation ids and a non-negative ttl, are made one after
    the other (each finished before the next starts, the clock standing
    still) on a key of an active product with stock S >= 0 on record, no
    reservation and no cache entry, with a working cache, exactly
    min(K, S) of them succeed and every other one fails with insufficient
    stock (0 available, 1 requested).  Nothing makes the check and the
    insertion atomic for calls that overlap. *)
Theorem C1_calls_in_turn_admit_min pid opts rids st p total :
  let size := opt_size opts in
  let color := opt_color opts in
  cacheFault st = false →
  products st !! pid = Some p → isActive p = true →
  stockOf p size color = Some total → 0 ≤ total →
  reservations st !! reservationKey pid size color = None →
  cacheLookup st (cacheKey pid size color) = None →
  NoDup rids → 0 ≤ default 900 (opt_ttl opts) →
  let os := (reserveEach pid 1 opts rids st).1 in
  successes os = Z.min (Z.of_nat (length rids)) total
  ∧ Forall (λ o, is_ok o = true ∨ o = Throw (InsufficientStock 0 1)) os
  ∧ ∀ rid, uninterrupted pid 1 opts rid 5 AtStart st
           = (Finished (reserveStock pid 1 opts rid st).1,
              (reserveStock pid 1 opts rid st).2).
Proof.
  intros size color Hf Hp Ha Hs Ht Hr Hc Hnd Httl os.
  assert (inTurn pid opts p total rids 0 st) as Hin.
  { unfold inTurn. fold size color. repeat split; try done; try lia.
    - unfold reservedQty. by rewrite Hr.
    - by left.
    - apply Forall_forall. intros rid _. unfold absent. by rewrite Hr. }
  destruct (reserveEach_inTurn pid opts p total Ha Hs Httl rids 0 st Hnd Hin)
    as [Hcount Hall].
  split; [|split; [done|]].
  - unfold os. rewrite Hcount. f_equal. lia.
  - intros rid. rewrite uninterrupted_reserveStock.
    by destruct (reserveStock pid 1 opts rid st).
Qed.

Lemma C1_witness :
  successes (reserveEach "p" 1 plain ["a"; "b"; "c"] (shop 2)).1
  = Z.min (Z.of_nat (length ["a"; "b"; "c"])) 2.
Proof.
  apply (C1_calls_in_turn_admit_min "p" plain ["a"; "b"; "c"] (shop 2)
           (mkProduct true 2 None) 2);
    try reflexivity.
  - lia.
  - by apply (bool_decide_unpack _).
  - simpl. lia.
Defined.

(** * Further properties *)

(** ** Reads leave availability alone *)

Lemma reservedQty_ext st st' pid size color :
  clock st' = clock st → reservations st' = reservations st →
  reservedQty st' pid size color = reservedQty st pid size color.
Proof. intros Hc Hr. unfold reservedQty. by rewrite Hc, Hr. Qed.

Lemma availableStock_ext st st' pid size color :
  products st' = products st →
  reservedQty st' pid size color = reservedQty st pid size color →
  availableStock st' pid size color = availableStock st pid size color.
Proof.
  intros Hp Hr. unfold availableStock, totalStock. by rewrite Hp, Hr.
Qed.

Lemma evictKey_cache key st : cache (evictKey key st) = cache st.
Proof. unfold evictKey. by destruct (reservations st !! key). Qed.

(** X1. [checkAvailability] is a read as far as availability goes: for
    any key, its own or another, the catalog, the reserved quantity and
    the available stock are after the call what they were before (the
    lazy eviction only drops reservations that no longer count), also
    when the call fails on the cache. *)
Theorem X1_checkAvailability_keeps_availability
    pid qty size color st pid' size' color' :
  let st' := (checkAvailability pid qty size color st).2 in
  products st' = products st
  ∧ reservedQty st' pid' size' color' = reservedQty st pid' size' color'
  ∧ availableStock st' pid' size' color' = availableStock st pid' size' color'.
Proof.
  intros st'.
  destruct (checkAvailability_effect pid size color qty st) as (Hp & Hc & Hr).
  fold st' in Hp, Hc, Hr.
  assert (reservedQty st' pid' size' color' = reservedQty st pid' size' color')
    as Hres.
  { destruct Hr as [Hr | Hr].
    - by apply reservedQty_ext.
    - rewrite <- (reservedQty_evictKey pid' size' color'
                    (reservationKey pid size color) st).
      apply reservedQty_ext; [|done]. by rewrite evictKey_clock. }
  split; [done|]. split; [done|]. by apply availableStock_ext.
Qed.

(** ** Products and variants that are not there *)

(** X2. With no cached answer for the key, [checkAvailability] of a
    product that does not exist or is inactive, or of a size/color that
    matches no variant, answers unavailable with stock 0 and canFulfill 0
    whatever the quantity asked (0 included), and leaves the store
    untouched: nothing is cached.  [reserveStock] then fails with
    insufficient stock, 0 available, and reserves nothing. *)
Theorem X2_unknown_product_is_unavailable pid qty opts rid st :
  let size := opt_size opts in
  let color := opt_color opts in
  cacheFault st = false →
  cacheLookup st (cacheKey pid size color) = None →
  (∀ p, products st !! pid = Some p →
        isActive p = false ∨ stockOf p size color = None) →
  (∃ why, checkAvailability pid qty size color st
          = (Ok (mkAvailability false 0 qty 0 (Some why) None), st))
  ∧ reserveStock pid qty opts rid st
    = (Throw (InsufficientStock 0 qty),
       add_log (ErrorReserving (InsufficientStock 0 qty)) st).
Proof.
  intros size color Hf Hc Hp.
  assert (∃ why, checkAvailability pid qty size color st
                 = (Ok (mkAvailability false 0 qty 0 (Some why) None), st))
    as [why Hca].
  { rewrite checkAvailability_eq by done. rewrite Hc.
    destruct (products st !! pid) as [p|]; [|by eexists].
    destruct (Hp p eq_refl) as [-> | Hs]; [by eexists|].
    destruct (isActive p); [|by eexists]. rewrite Hs. by eexists. }
  split; [by eexists|].
  by rewrite (reserveStock_reject pid qty opts rid st _ st Hca).
Qed.

Lemma X2_witness :
  reserveStock "ghost" 0 plain "r1" (shop 5)
  = (Throw (InsufficientStock 0 0),
     add_log (ErrorReserving (InsufficientStock 0 0)) (shop 5)).
Proof.
  apply (X2_unknown_product_is_unavailable "ghost" 0 plain "r1" (shop 5));
    [reflexivity | reflexivity |].
  intros p. vm_compute. discriminate.
Defined.

(** ** What an admission takes *)

Lemma reservedQty_admitted pid qty opts rid st0 :
  absent (reservationKey pid (opt_size opts) (opt_color opts)) rid st0 →
  0 ≤ default 900 (opt_ttl opts) →
  reservedQty (admitted pid qty opts rid st0) pid (opt_size opts) (opt_color opts)
  = reservedQty st0 pid (opt_size opts) (opt_color opts) + qty.
Proof.
  intros Habs Httl. unfold reservedQty at 1. rewrite admitted_lookup.
  rewrite liveSum_insert.
  2: { rewrite lookup_default_bind. apply Habs. }
  change (clock (admitted pid qty opts rid st0)) with (clock st0).
  rewrite <- reservedQty_default. unfold contribution, expired. simpl.
  destruct (Z.gtb_spec (clock st0)
              (clock st0 + default 900 (opt_ttl opts) * 1000)); lia.
Qed.

(** X3. A [reserveStock] that succeeds under a reservation id the key
    did not hold, with a non-negative ttl, leaves the catalog as it was
    and raises the reserved quantity of the key by exactly the quantity
    asked.  When moreover the cache had no answer for the key and the
    quantity is not negative, the quantity fitted in the available stock
    and the available stock has gone down by exactly that quantity. *)
Theorem X3_admission_takes_its_quantity pid qty opts rid st res st1 :
  let size := opt_size opts in
  let color := opt_color opts in
  reserveStock pid qty opts rid st = (Ok res, st1) →
  absent (reservationKey pid size color) rid st →
  0 ≤ default 900 (opt_ttl opts) →
  products st1 = products st
  ∧ reservedQty st1 pid size color = reservedQty st pid size color + qty
  ∧ (cacheLookup st (cacheKey pid size color) = None → 0 ≤ qty →
     ∃ a, availableStock st pid size color = Some a ∧ qty ≤ a
          ∧ availableStock st1 pid size color = Some (a - qty)).
Proof.
  intros size color Hr Habs Httl. subst size color.
  pose proof (reserveStock_ok_inv _ _ _ _ _ _ _ Hr)
    as (Hf & _ & a0 & st0 & Hc & Ha & -> & Hst0).
  destruct (checked_lookup pid opts st st0 Hst0)
    as (Hclk & Hprod & _ & Hres & _).
  pose proof (absent_checked pid opts st st0 rid Hst0 Habs) as Habs0.
  assert (reservedQty (admitted pid qty opts rid st0) pid (opt_size opts)
            (opt_color opts)
          = reservedQty st pid (opt_size opts) (opt_color opts) + qty) as Hq.
  { rewrite reservedQty_admitted by done. by rewrite Hres. }
  split; [done|]. split; [done|].
  intros Hmiss Hqty.
  apply checkAvailability_ok in Hc. unfold checked in Hc.
  rewrite Hmiss in Hc.
  destruct (products st !! pid) as [p|] eqn:Hp; [|by simplify_eq].
  destruct (isActive p); [|by simplify_eq].
  unfold availableStock, totalStock in *. simpl. rewrite Hprod, Hp in *.
  destruct (stockOf p (opt_size opts) (opt_color opts)) as [total|];
    [|by simplify_eq].
  simpl in Hc. injection Hc as <- _. simpl in Ha.
  destruct (Z.geb_spec
              (Z.max 0 (total - reservedQty st pid (opt_size opts)
                                  (opt_color opts))) qty) as [Hge|];
    [|done].
  eexists. split; [done|]. split; [lia|]. rewrite Hq. f_equal. lia.
Qed.

Lemma X3_witness :
  reservedQty (reserveStock "p" 3 plain "r1" (shop 5)).2 "p" None None
  = reservedQty (shop 5) "p" None None + 3.
Proof.
  apply (X3_admission_takes_its_quantity "p" 3 plain "r1" (shop 5)
           (mkReserveResult true "r1" 3 900000)
           (reserveStock "p" 3 plain "r1" (shop 5)).2);
    [reflexivity | reflexivity | simpl; lia].
Defined.

(** ** Other keys *)

Lemma reservedQty_other_key st st' pid size color pid' size' color' regs :
  reservationKey pid' size' color' ≠ reservationKey pid size color →
  clock st' = clock st →
  (regs = reservations st
   ∨ regs = reservations (evictKey (reservationKey pid size color) st)) →
  reservations st' !! reservationKey pid' size' color'
  = regs !! reservationKey pid' size' color' →
  reservedQty st' pid' size' color' = reservedQty st pid' size' color'.
Proof.
  intros Hne Hc Hregs Hl. unfold reservedQty. rewrite Hc, Hl.
  destruct Hregs as [-> | ->]; [done|].
  rewrite evictKey_lookup. by rewrite decide_False.
Qed.

(** X4. Keys do not interfere.  A [reserveStock] or a
    [releaseReservation] on one key, whatever its outcome, leaves the
    reserved quantity and the available stock of every key with a
    different registry key as they were: in particular a reservation on
    one size leaves another size of the same product fully available. *)
Theorem X4_other_keys_are_untouched
    pid size color pid' size' color' qty ttl rid st :
  reservationKey pid' size' color' ≠ reservationKey pid size color →
  let st1 := (reserveStock pid qty (mkOptions size color ttl) rid st).2 in
  let st2 := (releaseReservation rid pid size color st).2 in
  (reservedQty st1 pid' size' color' = reservedQty st pid' size' color'
   ∧ availableStock st1 pid' size' color' = availableStock st pid' size' color')
  ∧ (reservedQty st2 pid' size' color' = reservedQty st pid' size' color'
     ∧ availableStock st2 pid' size' color'
       = availableStock st pid' size' color').
Proof.
  intros Hne st1 st2. split.
  - destruct (reserveStock_effect pid size color qty ttl rid st)
      as (Hp & Hc & regs & Hregs & Hst1).
    fold st1 in Hp, Hc, Hst1.
    assert (reservedQty st1 pid' size' color' = reservedQty st pid' size' color')
      as Hres.
    { apply (reservedQty_other_key st st1 pid size color pid' size' color' regs);
        try done.
      destruct Hst1 as [-> | ->]; [done|].
      unfold insertReservation. by rewrite lookup_insert_ne. }
    split; [done|]. by apply availableStock_ext.
  - destruct (releaseReservation_effect pid size color rid st)
      as (Hp & Hc & Hst2).
    fold st2 in Hp, Hc, Hst2.
    assert (reservedQty st2 pid' size' color' = reservedQty st pid' size' color')
      as Hres.
    { apply (reservedQty_other_key st st2 pid size color pid' size' color'
               (reservations st)); try done; [by left|].
      destruct Hst2 as [-> | (m & r & _ & _ & ->)]; [done|].
      unfold withoutReservation. destruct (decide _).
      - by rewrite lookup_delete_ne.
      - by rewrite lookup_insert_ne. }
    split; [done|]. by apply availableStock_ext.
Qed.

Lemma X4_witness :
  let st1 := (reserveStock "p" 2 (mkOptions (Some "9") None None) "r1"
                twoSizes).2 in
  availableStock st1 "p" (Some "9") None = Some 0
  ∧ availableStock st1 "p" (Some "10") None
    = availableStock twoSizes "p" (Some "10") None.
Proof.
  intros st1. split; [reflexivity|].
  apply (X4_other_keys_are_untouched "p" (Some "9") None "p" (Some "10") None
           2 None "r1" twoSizes).
  vm_compute. discriminate.
Defined.

(** ** The registry after a sweep *)

(** X5. After [cleanupExpiredReservations] the reservations of every key
    are exactly those that were there and had not expired: none is
    invented, every live one is kept, every expired one is gone, and no
    key is left with an empty map.  The catalog and the cache are as
    before, and a second sweep at the same instant changes nothing
    more. *)
Theorem X5_sweep_keeps_exactly_the_live st key :
  let st1 := (cleanupExpiredReservations st).2 in
  let st2 := (cleanupExpiredReservations st1).2 in
  (∀ rid r,
     (reservations st1 !! key) ≫= (.!! rid) = Some r
     ↔ (reservations st !! key) ≫= (.!! rid) = Some r
       ∧ expired (clock st) r = false)
  ∧ reservations st1 !! key ≠ Some ∅
  ∧ products st1 = products st ∧ cache st1 = cache st
  ∧ reservations st2 = reservations st1.
Proof.
  intros st1 st2.
  assert (∀ k, reservations st1 !! k
               = match reservations st !! k with
                 | Some m => if decide (filter (live (clock st)) m = ∅)
                             then None
                             else Some (filter (live (clock st)) m)
                 | None => None
                 end) as Hl.
  { intros k. unfold st1. rewrite cleanup_reservations.
    apply sweepAll_lookup. }
  destruct (cleanup_frame st) as (Hclk & Hprod & Hcache).
  fold st1 in Hclk, Hprod, Hcache.
  split; [|split; [|split; [done|split; [done|]]]].
  - intros rid r. rewrite Hl.
    destruct (reservations st !! key) as [m|]; simpl;
      [|split; [done | by intros [? _]]].
    destruct (decide _) as [He|He]; simpl.
    + split; [done|]. intros [Hr Hlive].
      assert (filter (live (clock st)) m !! rid = Some r) as Hin
        by (by apply map_lookup_filter_Some).
      rewrite He in Hin. by rewrite lookup_empty in Hin.
    + rewrite map_lookup_filter_Some. unfold live. simpl. done.
  - rewrite Hl. destruct (reservations st !! key) as [m|]; [|done].
    destruct (decide _); [done|]. congruence.
  - apply map_eq. intros k. unfold st2.
    rewrite cleanup_reservations, sweepAll_lookup, Hclk, Hl.
    destruct (reservations st !! k) as [m|]; [|done].
    destruct (decide (filter (live (clock st)) m = ∅)) as [He|He]; [done|].
    assert (filter (live (clock st)) (filter (live (clock st)) m)
            = filter (live (clock st)) m) as ->.
    { apply map_eq. intros i. rewrite !map_lookup_filter.
      destruct (m !! i) as [r|]; simpl; [|done].
      case_guard; simpl; [|done]. by rewrite option_guard_True. }
    by rewrite decide_False.
Qed.

(** ** Releasing twice *)

Lemma releaseReservation_released_inv rid pid size color st q st1 :
  releaseReservation rid pid size color st = (Ok (Released q), st1) →
  ∃ m r, reservations st !! reservationKey pid size color = Some m
         ∧ m !! rid = Some r ∧ q = quantity r
         ∧ rejects CacheDel st = false
         ∧ reservations st1
           = withoutReservation (reservationKey pid size color) rid m
               (reservations st)
         ∧ timers st1 = timers st.
Proof.
  intros Hr.
  destruct (reservations st !! reservationKey pid size color) as [m|] eqn:Hm.
  2: { rewrite releaseReservation_missing in Hr; [done|]. by rewrite Hm. }
  destruct (m !! rid) as [r|] eqn:Hrid.
  2: { rewrite releaseReservation_missing in Hr; [done|]. by rewrite Hm. }
  destruct (rejects CacheDel st) eqn:Hf.
  - by rewrite (releaseReservation_found_rejected _ _ _ _ st m r) in Hr.
  - rewrite (releaseReservation_found_served _ _ _ _ st m r) in Hr by done.
    injection Hr as <- <-. by exists m, r.
Qed.

(** A reservation made by [reserveStock], [d] milliseconds later: what
    it adds to the reserved quantity, and what its release leaves. *)
Lemma reserveStock_then_release pid qty opts rid st res st1 d :
  let size := opt_size opts in
  let color := opt_color opts in
  let ttl := default 900 (opt_ttl opts) in
  let key := reservationKey pid size color in
  reserveStock pid qty opts rid st = (Ok res, st1) →
  let st2 := (tick d st1).2 in
  timers st2
  = (timers st
     ++ [mkTimer (clock st + timerDelay (ttl * 1000)) rid pid size color])%list
  ∧ ∃ m, reservations st2 !! key = Some m
         ∧ m !! rid = Some (mkReservation qty (clock st) (ttl * 1000))
         ∧ reservedQty st2 pid size color
           = liveSum (clock st2) (delete rid m)
             + (if d <=? ttl * 1000 then qty else 0)
         ∧ ∃ st3, releaseReservation rid pid size color st2
                  = (Ok (Released qty), st3)
                  ∧ absent key rid st3
                  ∧ reservedQty st3 pid size color
                    = liveSum (clock st2) (delete rid m).
Proof.
  intros size color ttl key Hr st2.
  destruct (reserveStock_ok_inv _ _ _ _ _ _ _ Hr)
    as (Hf & -> & a & st0 & Hc & Ha & -> & Hst0).
  destruct (checked_lookup pid opts st st0 Hst0) as (Hclk & _).
  pose proof (checked_rejects pid opts CacheDel st st0 Hst0) as Hcf.
  assert (timers st0 = timers st) as Htm.
  { destruct Hst0 as [-> | [v ->]]; [done|]. simpl. unfold evictKey.
    by destruct (reservations st !! _). }
  set (r0 := mkReservation qty (clock st) (ttl * 1000)).
  set (m := <[rid := r0]> (default ∅ (reservations st0 !! key))).
  assert (reservations st2 !! key = Some m) as Hm.
  { subst st2 m r0. simpl. unfold insertReservation. rewrite Hclk.
    apply lookup_insert_eq. }
  assert (m !! rid = Some r0) as Hrid by apply lookup_insert_eq.
  assert (clock st2 = clock st + d) as Hclk2.
  { subst st2. simpl. by rewrite Hclk. }
  assert (expired (clock st2) r0 = negb (d <=? ttl * 1000)) as He.
  { unfold expired, r0. cbn [createdAt rttl]. rewrite Hclk2.
    destruct (Z.leb_spec d (ttl * 1000)),
      (Z.gtb_spec (clock st + d) (clock st + ttl * 1000)); simpl;
      first [done | lia]. }
  split.
  { subst st2. simpl. by rewrite Htm, Hclk. }
  exists m. split; [done|]. split; [done|]. split.
  { unfold reservedQty. fold key. rewrite Hm.
    rewrite (liveSum_delete (clock st2) m rid r0 Hrid).
    unfold contribution. rewrite He. by destruct (d <=? ttl * 1000). }
  eexists. split; [|split].
  - rewrite (releaseReservation_found_served rid pid size color st2 m r0);
      [done | done | done |].
    subst st2. rewrite Hf in Hcf. exact Hcf.
  - unfold absent. simpl. apply lookup_withoutReservation.
  - unfold reservedQty. simpl. fold key. apply liveSum_withoutReservation.
Qed.

(** X6. Release is idempotent, but it cancels no timer.  Once
    [releaseReservation] has released a reservation, the key no longer
    holds the id, and releasing it again answers that it was not found
    and leaves the whole store as it is.  The timers are left as they
    were: [releaseReservation] never calls [clearTimeout].  So when the
    id is reserved again on the key, a timer that was set for the id
    before, whenever its callback runs, releases the new reservation,
    within its ttl or not: the reserved quantity of the key loses what
    the new reservation added to it. *)
Theorem X6_second_release_finds_nothing rid pid size color st q st1 :
  releaseReservation rid pid size color st = (Ok (Released q), st1) →
  let key := reservationKey pid size color in
  absent key rid st1
  ∧ releaseReservation rid pid size color st1 = (Ok ReservationNotFound, st1)
  ∧ timers st1 = timers st
  ∧ ∀ qty ttl res st2 d t,
      reserveStock pid qty (mkOptions size color ttl) rid st1 = (Ok res, st2) →
      t ∈ timers st →
      t_rid t = rid → t_pid t = pid → t_size t = size → t_color t = color →
      let st3 := (tick d st2).2 in
      t ∈ timers st3
      ∧ ∃ st4, fireTimer t st3 = (Ok (Released qty), st4)
               ∧ absent key rid st4
               ∧ reservedQty st4 pid size color
                 = reservedQty st3 pid size color
                   - (if d <=? default 900 ttl * 1000 then qty else 0).
Proof.
  intros Hr key.
  destruct (releaseReservation_released_inv _ _ _ _ _ _ _ Hr)
    as (m & r & _ & _ & _ & _ & Hregs & Htm).
  assert (absent key rid st1) as Habs.
  { unfold absent. rewrite Hregs. apply lookup_withoutReservation. }
  split; [done|]. split; [by apply releaseReservation_missing|].
  split; [done|].
  intros qty ttl res st2 d t Hres Ht Hrid Hpid Hsize Hcolor st3.
  destruct (reserveStock_then_release pid qty (mkOptions size color ttl) rid
              st1 res st2 d Hres)
    as (Htm2 & m2 & _ & _ & Hq & st4 & Hrel & Habs4 & Hq4).
  simpl in Htm2, Hq, Hrel, Habs4, Hq4. subst st3.
  split.
  { simpl. rewrite Htm2, Htm. apply elem_of_app. by left. }
  exists st4. split; [|split; [done|]].
  - unfold fireTimer. rewrite Hrid, Hpid, Hsize, Hcolor. exact Hrel.
  - simpl. rewrite Hq4, Hq. lia.
Qed.

Lemma X6_witness :
  let st := (reserveStock "p" 3 (mkOptions None None (Some 60)) "r1"
               (shop 5)).2 in
  let st1 := (releaseReservation "r1" "p" None None st).2 in
  let st2 := (reserveStock "p" 2 plain "r1" st1).2 in
  let st3 := (tick 60000 st2).2 in
  releaseReservation "r1" "p" None None st1 = (Ok ReservationNotFound, st1)
  ∧ ∃ st4, fireTimer (mkTimer 60000 "r1" "p" None None) st3
           = (Ok (Released 2), st4)
           ∧ absent "p:any:any" "r1" st4
           ∧ reservedQty st4 "p" None None
             = reservedQty st3 "p" None None - 2.
Proof.
  intros st st1 st2 st3.
  destruct (X6_second_release_finds_nothing "r1" "p" None None st 3 st1
              eq_refl) as (_ & H2 & _ & Hold).
  split; [exact H2|].
  destruct (Hold 2 None (mkReserveResult true "r1" 2 900000) st2 60000
              (mkTimer 60000 "r1" "p" None None) eq_refl)
    as (_ & st4 & Hfire & Habs & Hq); try reflexivity.
  { vm_compute. constructor. }
  exists st4. split; [exact Hfire|]. split; [exact Habs | exact Hq].
Defined.

(** ** updateStock: what is missing, what is emitted *)

Lemma findIndex_no_match size color vs :
  (∀ v, v ∈ vs → matches size color v = false) →
  findIndex size color vs = None.
Proof.
  induction vs as [|w vs IH]; intros Hno; simpl; [done|].
  rewrite (Hno w) by apply list_elem_of_here.
  rewrite IH; [done|]. intros v Hv. apply Hno. by apply list_elem_of_further.
Qed.

(** X7. [updateStock] looks for the product, then for the variant, and
    only then at the operation.  For a product that does not exist it
    fails with the product-not-found error; for a size/color that matches
    no variant of an existing product, with the variant-not-found error;
    for a size/color on a product without a variants array, with a type
    error.  This holds for every operation, valid or not, and every
    quantity, and in each case only the error is logged: catalog,
    registry, cache and events stay as they were. *)
Theorem X7_updateStock_reports_what_is_missing
    pid qty operation size color st :
  (products st !! pid = None →
   updateStock pid qty operation size color st
   = (Throw ProductNotFound, add_log (ErrorUpdating ProductNotFound) st))
  ∧ (∀ p, products st !! pid = Some p →
          truthy size || truthy color = true →
          (variants p = None →
           updateStock pid qty operation size color st
           = (Throw TypeError, add_log (ErrorUpdating TypeError) st))
          ∧ (∀ vs, variants p = Some vs →
                   (∀ v, v ∈ vs → matches size color v = false) →
                   updateStock pid qty operation size color st
                   = (Throw VariantNotFound,
                      add_log (ErrorUpdating VariantNotFound) st))).
Proof.
  split.
  - intros Hp. unfold updateStock, tryCatch, bind, findById, gets.
    by rewrite Hp.
  - intros p Hp Hk. split.
    + intros Hv. unfold updateStock, tryCatch, bind, findById, gets.
      by rewrite Hp, Hk, Hv.
    + intros vs Hv Hno. unfold updateStock, tryCatch, bind, findById, gets.
      rewrite Hp, Hk, Hv. by rewrite (findIndex_no_match size color vs Hno).
Qed.

Lemma X7_witness :
  updateStock "ghost" 1 "multiply" None None (shop 5)
  = (Throw ProductNotFound,
     add_log (ErrorUpdating ProductNotFound) (shop 5)).
Proof.
  apply (proj1 (X7_updateStock_reports_what_is_missing "ghost" 1 "multiply"
                  None None (shop 5))).
  reflexivity.
Defined.

(** The store a successful [updateStock] leaves. *)
Lemma updateStock_ok_store pid qty operation size color st p old newStock :
  products st !! pid = Some p →
  stockOf p size color = Some old →
  applyOperation operation old qty = Some newStock →
  cacheFault st = false → alertFault st = false →
  updateStock pid qty operation size color st
  = (Ok (mkUpdateResult true old newStock operation),
     mkState (clock st) (reservations st)
       (<[pid := updatedProduct p size color newStock]> (products st))
       (delete (cacheKey pid size color) (cache st))
       (cacheFault st) (cacheServes st) (alertFault st) (timers st)
       (emitted st ++ alertFor pid newStock
        ++ [StockUpdated pid old newStock operation])
       (logged st ++ [InfoStockUpdated pid old newStock]
        ++ alertLog pid newStock)).
Proof.
  intros Hp Hs Hop Hf Ha.
  rewrite (updateStock_found pid qty operation size color st p old newStock)
    by done.
  simpl.
  rewrite (checkStockAlerts_alert pid size color _ newStock)
    by (by apply stockOf_updatedProduct with old).
  simpl. rewrite Ha, andb_false_r. unfold add_event. simpl.
  by rewrite <- !app_assoc.
Qed.

(** X8. A successful [updateStock] emits, after what had been emitted
    before: an out-of-stock alert when the new stock of the key is 0 or
    less, else a low-stock alert when it is 10 or less, else no alert;
    and then the stock-updated event.  Never two alerts; the alert is
    about the stock of the key updated (the variant's for a size/color
    key).  It logs the update and then, when an alert is emitted, the
    line the listener of the module writes for it ([logger.error] for
    out of stock, [logger.warn] for low stock), and nothing else; and it
    deletes the cache entry of the key. *)
Theorem X8_updateStock_emits_one_alert_at_most
    pid qty operation size color st p old newStock :
  products st !! pid = Some p →
  stockOf p size color = Some old →
  applyOperation operation old qty = Some newStock →
  cacheFault st = false → alertFault st = false →
  let st' := (updateStock pid qty operation size color st).2 in
  emitted st'
  = (emitted st
     ++ (if newStock <=? 0 then [OutOfStock pid newStock]
         else if newStock <=? 10 then [LowStock pid newStock 10] else [])
     ++ [StockUpdated pid old newStock operation])%list
  ∧ logged st'
    = (logged st ++ [InfoStockUpdated pid old newStock]
       ++ (if newStock <=? 0 then [ErrorOutOfStock pid newStock]
           else if newStock <=? 10 then [WarnLowStock pid newStock 10]
           else []))%list
  ∧ cache st' = delete (cacheKey pid size color) (cache st).
Proof.
  intros Hp Hs Hop Hf Ha st'. unfold st'.
  by rewrite (updateStock_ok_store pid qty operation size color st p old
                newStock).
Qed.

Lemma X8_witness :
  emitted (updateStock "p" 2 "subtract" None None (shop 5)).2
  = [LowStock "p" 3 10; StockUpdated "p" 5 3 "subtract"].
Proof.
  apply (X8_updateStock_emits_one_alert_at_most "p" 2 "subtract" None None
           (shop 5) (mkProduct true 5 None) 5 3);
    reflexivity.
Defined.

(** X9. With working collaborators, on a key that resolves to a stock
    that is not negative, and for an amount that is not negative: [add]
    followed by [subtract] of the same amount gives the stock back;
    [subtract] followed by [add] gives the larger of the stock and the
    amount, so it gives the stock back only when the amount does not
    exceed it. *)
Theorem X9_add_and_subtract_compose pid qty size color st p old :
  products st !! pid = Some p →
  stockOf p size color = Some old →
  cacheFault st = false → alertFault st = false →
  0 ≤ old → 0 ≤ qty →
  let added := (updateStock pid qty "add" size color st).2 in
  let restored := (updateStock pid qty "subtract" size color added).2 in
  let taken := (updateStock pid qty "subtract" size color st).2 in
  let refilled := (updateStock pid qty "add" size color taken).2 in
  totalStock added pid size color = Some (old + qty)
  ∧ totalStock restored pid size color = Some old
  ∧ totalStock taken pid size color = Some (Z.max 0 (old - qty))
  ∧ totalStock refilled pid size color = Some (Z.max old qty).
Proof.
  intros Hp Hs Hf Ha Hold Hqty.
  assert (∀ operation s q p0 old0 newStock,
            products s !! pid = Some p0 → stockOf p0 size color = Some old0 →
            applyOperation operation old0 q = Some newStock →
            cacheFault s = false → alertFault s = false →
            let s' := (updateStock pid q operation size color s).2 in
            products s' !! pid = Some (updatedProduct p0 size color newStock)
            ∧ stockOf (updatedProduct p0 size color newStock) size color
              = Some newStock
            ∧ totalStock s' pid size color = Some newStock
            ∧ cacheFault s' = false ∧ alertFault s' = false) as Hstep.
  { intros operation s q p0 old0 newStock Hp0 Hs0 Hop Hf0 Ha0 s'. unfold s'.
    rewrite (updateStock_ok_store pid q operation size color s p0 old0 newStock)
      by done.
    unfold totalStock. simpl.
    rewrite lookup_insert_eq.
    rewrite (stockOf_updatedProduct size color p0 old0 newStock Hs0). done. }
  intros added restored taken refilled.
  destruct (Hstep "add" st qty p old (old + qty) Hp Hs eq_refl Hf Ha)
    as (Hp1 & Hs1 & Ht1 & Hf1 & Ha1).
  destruct (Hstep "subtract" added qty _ (old + qty)
              (Z.max 0 (old + qty - qty)) Hp1 Hs1 eq_refl Hf1 Ha1)
    as (_ & _ & Ht2 & _).
  destruct (Hstep "subtract" st qty p old (Z.max 0 (old - qty)) Hp Hs eq_refl
              Hf Ha)
    as (Hp3 & Hs3 & Ht3 & Hf3 & Ha3).
  destruct (Hstep "add" taken qty _ (Z.max 0 (old - qty))
              (Z.max 0 (old - qty) + qty) Hp3 Hs3 eq_refl Hf3 Ha3)
    as (_ & _ & Ht4 & _).
  fold added in Ht1. fold restored in Ht2. fold taken in Ht3.
  fold refilled in Ht4.
  split; [done|]. split; [rewrite Ht2; f_equal; lia|].
  split; [done|]. rewrite Ht4. f_equal. lia.
Qed.

Lemma X9_witness :
  let taken := (updateStock "p" 7 "subtract" None None (shop 5)).2 in
  totalStock (updateStock "p" 7 "add" None None taken).2 "p" None None
  = Some (Z.max 5 7).
Proof.
  intros taken.
  apply (X9_add_and_subtract_compose "p" 7 None None (shop 5)
           (mkProduct true 5 None) 5);
    try reflexivity; lia.
Defined.

(** ** The low-stock and out-of-stock lists *)

(** X10. [getLowStockProducts] and [getOutOfStockProducts] only read: the
    store is unchanged.  A product is on a list exactly when it is in the
    catalog, active, and its stock is at most the threshold (10 by
    default for low stock, 0 for out of stock); an inactive product is on
    neither list whatever its stock.  Every out-of-stock product is also
    a low-stock product, so the out-of-stock count never exceeds the
    low-stock count, and raising the threshold never removes a product
    from the low-stock list. *)
Theorem X10_stock_lists st t1 t2 :
  t1 ≤ t2 →
  ∃ low1 low2 low out,
    getLowStockProducts t1 st = (Ok low1, st)
    ∧ getLowStockProducts t2 st = (Ok low2, st)
    ∧ getLowStockProducts lowStockThreshold st = (Ok low, st)
    ∧ getOutOfStockProducts st = (Ok out, st)
    ∧ (∀ pid p, low1 !! pid = Some p
                ↔ products st !! pid = Some p ∧ pstock p ≤ t1
                  ∧ isActive p = true)
    ∧ (∀ pid p, out !! pid = Some p
                ↔ products st !! pid = Some p ∧ pstock p ≤ 0
                  ∧ isActive p = true)
    ∧ low1 ⊆ low2 ∧ out ⊆ low
    ∧ (base.size out ≤ base.size low)%nat.
Proof.
  intros Ht. do 4 eexists.
  split; [done|]. split; [done|]. split; [done|]. split; [done|].
  assert (∀ a b, a ≤ b →
            filter (atMostInStock a) (products st)
            ⊆ filter (atMostInStock b) (products st)) as Hmono.
  { intros a b Hab. apply map_subseteq_spec. intros pid p.
    rewrite !map_lookup_filter_Some. unfold atMostInStock. simpl.
    intros (? & ? & ?). repeat split; [done | lia | done]. }
  split; [|split; [|split; [|split]]].
  - intros pid p. rewrite map_lookup_filter_Some. unfold atMostInStock.
    simpl. done.
  - intros pid p. rewrite map_lookup_filter_Some. unfold atMostInStock.
    simpl. done.
  - by apply Hmono.
  - apply Hmono. unfold outOfStockThreshold, lowStockThreshold. lia.
  - apply map_subseteq_size, Hmono.
    unfold outOfStockThreshold, lowStockThreshold. lia.
Qed.

Lemma X10_witness :
  ∃ low1 low2 low out,
    getLowStockProducts 3 (shop 5) = (Ok low1, shop 5)
    ∧ getLowStockProducts 7 (shop 5) = (Ok low2, shop 5)
    ∧ getLowStockProducts lowStockThreshold (shop 5) = (Ok low, shop 5)
    ∧ getOutOfStockProducts (shop 5) = (Ok out, shop 5)
    ∧ low1 ⊆ low2 ∧ out ⊆ low.
Proof.
  destruct (X10_stock_lists (shop 5) 3 7) as (l1 & l2 & l & o & H); [lia|].
  exists l1, l2, l, o. tauto.
Defined.

(** X11. For an active product updated on its plain key (no size, no
    color) by a successful [updateStock], the alert emitted (the events
    of the call are [alertFor] and then the stock-updated event) agrees
    with the lists: the out-of-stock alert is emitted exactly when the
    product is then on the out-of-stock list, and some alert exactly when
    it is on the low-stock list. *)
Theorem X11_alert_agrees_with_lists pid qty operation st p newStock :
  products st !! pid = Some p → isActive p = true →
  applyOperation operation (pstock p) qty = Some newStock →
  cacheFault st = false → alertFault st = false →
  let st' := (updateStock pid qty operation None None st).2 in
  ∃ low out,
    getLowStockProducts lowStockThreshold st' = (Ok low, st')
    ∧ getOutOfStockProducts st' = (Ok out, st')
    ∧ emitted st'
      = (emitted st ++ alertFor pid newStock
         ++ [StockUpdated pid (pstock p) newStock operation])%list
    ∧ (is_Some (out !! pid) ↔ alertFor pid newStock = [OutOfStock pid newStock])
    ∧ (is_Some (low !! pid) ↔ alertFor pid newStock ≠ []).
Proof.
  intros Hp Hact Hop Hf Ha st'. unfold st'.
  rewrite (updateStock_ok_store pid qty operation None None st p (pstock p)
             newStock) by done.
  simpl.
  do 2 eexists. split; [done|]. split; [done|]. split; [done|].
  simpl.
  assert (∀ t, is_Some (filter (atMostInStock t)
                          (<[pid := updatedProduct p None None newStock]>
                             (products st)) !! pid)
               ↔ newStock ≤ t) as Hin.
  { intros t. split.
    - intros [q Hq]. apply map_lookup_filter_Some in Hq as [Hq [Hle _]].
      rewrite lookup_insert_eq in Hq. injection Hq as <-. simpl in Hle.
      done.
    - intros Hle. eexists. apply map_lookup_filter_Some.
      rewrite lookup_insert_eq. split; [done|].
      unfold atMostInStock, updatedProduct. simpl. done. }
  rewrite !Hin. unfold alertFor, outOfStockThreshold, lowStockThreshold.
  destruct (Z.leb_spec newStock 0); [split; [split; [done | lia] |
                                             split; [done | lia]] |].
  destruct (Z.leb_spec newStock 10).
  - split; [split; [lia | done] | split; [done | lia]].
  - split; [split; [lia | done] | split; [lia | done]].
Qed.

Lemma X11_witness :
  let st' := (updateStock "p" 5 "subtract" None None (shop 5)).2 in
  ∃ low out,
    getLowStockProducts lowStockThreshold st' = (Ok low, st')
    ∧ getOutOfStockProducts st' = (Ok out, st')
    ∧ emitted st' = [OutOfStock "p" 0; StockUpdated "p" 5 0 "subtract"]
    ∧ (is_Some (out !! "p") ↔ alertFor "p" 0 = [OutOfStock "p" 0])
    ∧ (is_Some (low !! "p") ↔ alertFor "p" 0 ≠ []).
Proof.
  apply (X11_alert_agrees_with_lists "p" 5 "subtract" (shop 5)
           (mkProduct true 5 None) 0);
    reflexivity.
Defined.

(** ** batchUpdateStock *)

Lemma updateStock_no_product pid qty operation size color st :
  products st !! pid = None →
  updateStock pid qty operation size color st
  = (Throw ProductNotFound, add_log (ErrorUpdating ProductNotFound) st).
Proof.
  intros Hp. unfold updateStock, tryCatch, bind, findById, gets.
  by rewrite Hp.
Qed.

(** The entry [batchUpdateStock] records for one update. *)
Lemma batchOne_eq u acc st :
  batchOne u acc st
  = match updateStock (u_productId u) (u_quantity u) (orSet (u_operation u))
            (u_size u) (u_color u) st with
    | (Ok r, st') => (Ok (acc ++ [BatchDone r (u_productId u)])%list, st')
    | (Throw e, st') => (Ok (acc ++ [BatchFailed e (u_productId u)])%list, st')
    end.
Proof.
  unfold batchOne, tryCatch, bind, ret.
  by destruct (updateStock _ _ _ _ _ st) as [[r|e] st'].
Qed.

Lemma batchLoop_acc us acc st :
  ∃ rs st', batchLoop us [] st = (Ok rs, st')
            ∧ batchLoop us acc st = (Ok (acc ++ rs)%list, st')
            ∧ length rs = length us
            ∧ batchProductId <$> rs = u_productId <$> us.
Proof.
  revert acc st. induction us as [|u us IH]; intros acc st; simpl.
  - exists [], st. by rewrite app_nil_r.
  - unfold bind. rewrite !batchOne_eq.
    destruct (updateStock _ _ _ _ _ st) as [[r|e] st1].
    + destruct (IH [BatchDone r (u_productId u)] st1)
        as (rs & st' & H0 & H1 & Hlen & Hids).
      destruct (IH (acc ++ [BatchDone r (u_productId u)])%list st1)
        as (rs' & st'' & H0' & H1' & _).
      rewrite H0 in H0'. injection H0' as <- <-.
      exists (BatchDone r (u_productId u) :: rs), st'.
      split; [exact H1|]. split; [by rewrite H1', <- app_assoc|].
      split; [simpl; by rewrite Hlen|]. rewrite !fmap_cons. by rewrite Hids.
    + destruct (IH [BatchFailed e (u_productId u)] st1)
        as (rs & st' & H0 & H1 & Hlen & Hids).
      destruct (IH (acc ++ [BatchFailed e (u_productId u)])%list st1)
        as (rs' & st'' & H0' & H1' & _).
      rewrite H0 in H0'. injection H0' as <- <-.
      exists (BatchFailed e (u_productId u) :: rs), st'.
      split; [exact H1|]. split; [by rewrite H1', <- app_assoc|].
      split; [simpl; by rewrite Hlen|]. rewrite !fmap_cons. by rewrite Hids.
Qed.

Lemma batchLoop_app us1 us2 acc st rs1 st1 :
  batchLoop us1 acc st = (Ok rs1, st1) →
  batchLoop (us1 ++ us2) acc st = batchLoop us2 rs1 st1.
Proof.
  revert acc st. induction us1 as [|u us1 IH]; intros acc st; simpl.
  - by intros [= -> ->].
  - unfold bind. rewrite batchOne_eq.
    destruct (updateStock _ _ _ _ _ st) as [[r|e] st']; apply IH.
Qed.

(** X12. [batchUpdateStock] never throws.  It returns one entry per
    update, in the order of the updates and carrying their product ids:
    the result of [updateStock] where it succeeded, its error where it
    failed.  A failure stops nothing: the updates after it are applied to
    the store the failed one left, so that a batch is its first part
    followed by its second part. *)
Theorem X12_batch_one_entry_per_update us1 us2 u st :
  ∃ rs1 st1 rs2 st2,
    batchUpdateStock us1 st = (Ok rs1, st1)
    ∧ batchUpdateStock us2 st1 = (Ok rs2, st2)
    ∧ batchUpdateStock (us1 ++ us2) st = (Ok (rs1 ++ rs2)%list, st2)
    ∧ length rs1 = length us1
    ∧ batchProductId <$> rs1 = u_productId <$> us1
    ∧ batchUpdateStock [u] st
      = (Ok [match (updateStock (u_productId u) (u_quantity u)
                      (orSet (u_operation u)) (u_size u) (u_color u) st).1 with
             | Ok r => BatchDone r (u_productId u)
             | Throw e => BatchFailed e (u_productId u)
             end],
         (updateStock (u_productId u) (u_quantity u) (orSet (u_operation u))
            (u_size u) (u_color u) st).2).
Proof.
  unfold batchUpdateStock.
  destruct (batchLoop_acc us1 [] st) as (rs1 & st1 & H1 & _ & Hlen & Hids).
  destruct (batchLoop_acc us2 rs1 st1) as (rs2 & st2 & H2 & H2' & _).
  exists rs1, st1, rs2, st2.
  split; [done|]. split; [done|]. split; [|split; [done|split; [done|]]].
  - by rewrite (batchLoop_app us1 us2 [] st rs1 st1 H1).
  - simpl. unfold bind. rewrite batchOne_eq.
    by destruct (updateStock _ _ _ _ _ st) as [[r|e] st'].
Qed.

(** X13. An update of the batch that names a product the catalog does
    not hold when its turn comes is recorded as failed with the
    product-not-found error and changes nothing but the log; the updates
    before it and after it are applied and recorded as they would be
    without it in the catalog it left untouched. *)
Theorem X13_batch_skips_unknown_product us1 bad us2 st rs1 st1 :
  batchUpdateStock us1 st = (Ok rs1, st1) →
  products st1 !! u_productId bad = None →
  let st1' := add_log (ErrorUpdating ProductNotFound) st1 in
  ∃ rs2 st2,
    batchUpdateStock us2 st1' = (Ok rs2, st2)
    ∧ products st1' = products st1 ∧ reservations st1' = reservations st1
    ∧ cache st1' = cache st1 ∧ emitted st1' = emitted st1
    ∧ batchUpdateStock (us1 ++ bad :: us2) st
      = (Ok (rs1 ++ BatchFailed ProductNotFound (u_productId bad) :: rs2)%list,
         st2).
Proof.
  intros H1 Hbad st1'. unfold batchUpdateStock in *.
  destruct (batchLoop_acc us2
              (rs1 ++ [BatchFailed ProductNotFound (u_productId bad)])%list st1')
    as (rs2 & st2 & H2 & H2' & _).
  exists rs2, st2. split; [done|]. do 4 (split; [done|]).
  rewrite (batchLoop_app us1 (bad :: us2) [] st rs1 st1 H1). simpl.
  unfold bind. rewrite batchOne_eq.
  rewrite (updateStock_no_product (u_productId bad) (u_quantity bad)
             (orSet (u_operation bad)) (u_size bad) (u_color bad) st1 Hbad).
  fold st1'. rewrite H2'. by rewrite <- app_assoc.
Qed.

Lemma X13_witness :
  let us1 := [mkUpdate "p" 2 (Some "subtract") None None] in
  let bad := mkUpdate "ghost" 1 None None None in
  let us2 := [mkUpdate "p" 1 (Some "add") None None] in
  (batchUpdateStock (us1 ++ bad :: us2) (shop 5)).1
  = Ok [BatchDone (mkUpdateResult true 5 3 "subtract") "p";
        BatchFailed ProductNotFound "ghost";
        BatchDone (mkUpdateResult true 3 4 "add") "p"].
Proof.
  intros us1 bad us2.
  destruct (X13_batch_skips_unknown_product us1 bad us2 (shop 5)
              [BatchDone (mkUpdateResult true 5 3 "subtract") "p"]
              (batchUpdateStock us1 (shop 5)).2 eq_refl eq_refl)
    as (rs2 & st2 & H2 & _ & _ & _ & _ & H).
  rewrite H. vm_compute in H2. injection H2 as <- _. reflexivity.
Defined.

(** ** Requests of any quantity, in turn *)

Section Requests.
Variables (pid : string) (opts : options) (p : product) (total : Z).

Local Abbreviation size := (opt_size opts).
Local Abbreviation color := (opt_color opts).
Local Abbreviation rkey := (reservationKey pid size color).
Local Abbreviation ckey := (cacheKey pid size color).

Hypothesis Hactive : isActive p = true.
Hypothesis Hstock : stockOf p size color = Some total.
Hypothesis Httl : 0 ≤ default 900 (opt_ttl opts).

Lemma inTurn_request rid todo n q st :
  inTurn pid opts p total (rid :: todo) n st → 0 ≤ q → rid ∉ todo →
  ∃ o st',
    reserveStock pid q opts rid st = (o, st')
    ∧ ((q ≤ total - n ∧ is_ok o = true
        ∧ inTurn pid opts p total todo (n + q) st')
       ∨ (total - n < q ∧ o = Throw (InsufficientStock (total - n) q)
          ∧ inTurn pid opts p total todo n st')).
Proof.
  intros Hin Hq Hnot.
  pose proof (inTurn_deciding pid opts p total Hactive Hstock todo n st) as Hd.
  destruct Hin as (Hf & Hp & Hn & Hb & Hc & Habs).
  assert (decidingStock st pid size color = Some (total - n)) as Hdec.
  { unfold decidingStock. destruct Hc as [-> | ->]; [|done].
    rewrite Hp, Hactive. unfold availableStock, totalStock.
    rewrite Hp, Hstock, Hn. f_equal. lia. }
  clear Hd.
  pose proof (reserveStock_decision pid q opts rid st Hf) as Hout.
  rewrite Hdec in Hout.
  apply Forall_cons in Habs as [Hrid Htodo].
  destruct (reserveStock pid q opts rid st) as [o st'] eqn:Hr.
  simpl in Hout. exists o, st'. split; [done|].
  destruct (Z.geb_spec (total - n) q) as [Hge|Hlt]; subst o.
  - left. split; [lia|]. split; [done|].
    destruct (reserveStock_ok_inv _ _ _ _ _ _ _ Hr)
      as (_ & _ & a & st0 & _ & _ & -> & Hst0).
    destruct (checked_lookup pid opts st st0 Hst0)
      as (Hclk & Hprod & Hcf & Hres & _).
    pose proof (absent_checked pid opts st st0 rid Hst0 Hrid) as Hrid0.
    unfold inTurn.
    rewrite reservedQty_admitted by done. simpl. rewrite Hcf, Hprod, Hres, Hn.
    split; [done|]. split; [done|]. split; [done|]. split; [lia|]. split.
    + left. unfold cacheLookup. simpl. by rewrite lookup_delete_eq.
    + apply Forall_forall. intros rid' Hin'.
      assert (rid' ≠ rid) by (intros ->; done).
      rewrite Forall_forall in Htodo.
      pose proof (absent_checked pid opts st st0 rid' Hst0 (Htodo rid' Hin'))
        as Ha0.
      unfold absent in *. simpl. unfold insertReservation.
      rewrite lookup_insert_eq. simpl.
      rewrite lookup_insert_ne by done. by rewrite lookup_default_bind.
  - right. split; [lia|]. split; [done|].
    pose proof (checkAvailability_eq pid size color q st Hf) as Hca.
    simpl in Hca.
    destruct Hc as [Hc | Hc]; rewrite Hc in Hca.
    + rewrite Hp, Hactive, Hstock, Hn in Hca.
      replace (Z.max 0 (total - n)) with (total - n) in Hca by lia.
      rewrite (reserveStock_reject _ _ _ _ _ _ _ Hca) in Hr.
      2: { simpl. by destruct (Z.geb_spec (total - n) q); [lia|]. }
      injection Hr as <-.
      unfold inTurn. simpl.
      rewrite evictKey_cacheFault, evictKey_products.
      split; [done|]. split; [done|]. split; [|split; [lia|split]].
      * change (reservedQty (evictKey rkey st) pid size color = n).
        by rewrite reservedQty_evictKey.
      * right. unfold cacheLookup. simpl.
        rewrite lookup_insert_eq, evictKey_clock.
        by destruct (Z.ltb_spec (clock st) (clock st + 300 * 1000)); [|lia].
      * apply Forall_forall. intros rid' Hin'. rewrite Forall_forall in Htodo.
        apply (absent_checked pid opts st
                 (set_cache <[ckey := (total - n, clock st + 300 * 1000)]>
                    (evictKey rkey st)) rid'); eauto.
    + rewrite (reserveStock_reject _ _ _ _ _ _ _ Hca) in Hr.
      2: { simpl. by destruct (Z.geb_spec (total - n) q); [lia|]. }
      injection Hr as <-.
      unfold inTurn. simpl.
      rewrite reservedQty_add_log, cacheLookup_add_log, Hc.
      repeat split; try done; try lia. by right.
Qed.

Lemma reserveInTurn_inTurn reqs n st :
  NoDup reqs.*2 → Forall (λ r, 0 ≤ r.1) reqs →
  inTurn pid opts p total reqs.*2 n st →
  let os := (reserveInTurn pid opts reqs st).1 in
  let st' := (reserveInTurn pid opts reqs st).2 in
  reservedQty st' pid size color = n + granted reqs os
  ∧ 0 ≤ granted reqs os ∧ n + granted reqs os ≤ total
  ∧ products st' !! pid = Some p
  ∧ Forall2 (λ r o, is_ok o = true
                    ∨ ∃ a, o = Throw (InsufficientStock a r.1) ∧ a < r.1)
      reqs os.
Proof.
  revert n st. induction reqs as [|[q rid] reqs IH]; intros n st Hnd Hq Hin.
  - simpl. destruct Hin as (_ & Hp & Hn & Hb & _).
    repeat split; try done; try lia.
  - rewrite fmap_cons in Hnd, Hin. simpl in Hnd, Hin.
    apply NoDup_cons in Hnd as [Hnot Hnd].
    apply Forall_cons in Hq as [Hq0 Hq].
    destruct (inTurn_request rid (reqs.*2) n q st Hin Hq0 Hnot)
      as (o & st1 & Hr & Hcase).
    simpl. rewrite Hr.
    destruct Hcase as [(Hfit & Hok & Hin1) | (Hno & -> & Hin1)].
    + specialize (IH (n + q) st1 Hnd Hq Hin1).
      destruct (reserveInTurn pid opts reqs st1) as [os st2]. simpl in *.
      destruct IH as (Hres & Hg0 & Hg1 & Hp2 & Hall).
      rewrite Hok. repeat split; try done; try lia.
      constructor; [by left | done].
    + specialize (IH n st1 Hnd Hq Hin1).
      destruct (reserveInTurn pid opts reqs st1) as [os st2]. simpl in *.
      destruct IH as (Hres & Hg0 & Hg1 & Hp2 & Hall).
      repeat split; try done; try lia.
      constructor; [|done]. right. exists (total - n). simpl.
      split; [done | lia].
Qed.

End Requests.

(** X14. Requests made in turn never oversell.  When [reserveStock] is
    called for a list of requests of any non-negative quantities, under
    distinct reservation ids and a non-negative ttl, one call after the
    other with the clock standing still, on a key of an active product
    with stock [total >= 0], no reservation and no cache entry, with a
    working cache: the reserved quantity of the key ends as the sum of
    the quantities granted, which never exceeds the stock; the available
    stock ends as the stock less that sum; and every request that is
    refused is refused for insufficient stock, with fewer units left than
    it asked. *)
Theorem X14_requests_in_turn_never_oversell pid opts reqs st p total :
  let size := opt_size opts in
  let color := opt_color opts in
  cacheFault st = false →
  products st !! pid = Some p → isActive p = true →
  stockOf p size color = Some total → 0 ≤ total →
  reservations st !! reservationKey pid size color = None →
  cacheLookup st (cacheKey pid size color) = None →
  NoDup reqs.*2 → Forall (λ r, 0 ≤ r.1) reqs →
  0 ≤ default 900 (opt_ttl opts) →
  let os := (reserveInTurn pid opts reqs st).1 in
  let st' := (reserveInTurn pid opts reqs st).2 in
  reservedQty st' pid size color = granted reqs os
  ∧ 0 ≤ granted reqs os ≤ total
  ∧ availableStock st' pid size color = Some (total - granted reqs os)
  ∧ Forall2 (λ r o, is_ok o = true
                    ∨ ∃ a, o = Throw (InsufficientStock a r.1) ∧ a < r.1)
      reqs os.
Proof.
  intros size color Hf Hp Ha Hs Ht Hr Hc Hnd Hq Httl os st'.
  subst size color.
  assert (inTurn pid opts p total reqs.*2 0 st) as Hin.
  { unfold inTurn. repeat split; try done; try lia.
    - unfold reservedQty. by rewrite Hr.
    - by left.
    - apply Forall_forall. intros rid _. unfold absent. by rewrite Hr. }
  destruct (reserveInTurn_inTurn pid opts p total Ha Hs Httl reqs 0 st Hnd Hq Hin)
    as (Hres & Hg0 & Hg1 & Hp' & Hall).
  fold os st' in Hres, Hg0, Hg1, Hp', Hall.
  split; [rewrite Hres; lia|]. split; [lia|]. split; [|done].
  unfold availableStock, totalStock. rewrite Hp', Hs, Hres. f_equal. lia.
Qed.

Lemma X14_witness :
  let reqs := [(2, "a"); (3, "b"); (1, "c"); (0, "d")] in
  reservedQty (reserveInTurn "p" plain reqs (shop 4)).2 "p" None None
  = granted reqs (reserveInTurn "p" plain reqs (shop 4)).1.
Proof.
  intros reqs.
  apply (X14_requests_in_turn_never_oversell "p" plain reqs (shop 4)
           (mkProduct true 4 None) 4);
    try reflexivity.
  - lia.
  - by apply (bool_decide_unpack _).
  - repeat constructor; simpl; lia.
  - simpl. lia.
Defined.

(** ** The cache forgets within 300 seconds *)

Lemma keepsFresh_ret {A} (a : A) : keepsFresh (ret a).
Proof. by intros st H. Qed.

Lemma keepsFresh_throw {A} e : keepsFresh (@throw A e).
Proof. by intros st H. Qed.

Lemma keepsFresh_gets {A} (f : state → A) : keepsFresh (gets f).
Proof. by intros st H. Qed.

Lemma keepsFresh_bind {A B} (m : M A) (k : A → M B) :
  keepsFresh m → (∀ a, keepsFresh (k a)) → keepsFresh (bind m k).
Proof.
  intros Hm Hk st H. unfold bind. specialize (Hm st H).
  destruct (m st) as [[a|e] st1]; simpl in *; [by apply Hk | done].
Qed.

Lemma keepsFresh_tryCatch {A} (m : M A) (h : error → M A) :
  keepsFresh m → (∀ e, keepsFresh (h e)) → keepsFresh (tryCatch m h).
Proof.
  intros Hm Hh st H. unfold tryCatch. specialize (Hm st H).
  destruct (m st) as [[a|e] st1]; simpl in *; [done | by apply Hh].
Qed.

Lemma keepsFresh_modify (f : state → state) :
  (∀ st, cache (f st) = cache st) → (∀ st, clock (f st) = clock st) →
  keepsFresh (modify f).
Proof.
  intros Hc Ht st H key v expiry. simpl. rewrite Hc, Ht. apply H.
Qed.

Lemma keepsFresh_cache_get key : keepsFresh (cache_get key).
Proof. intros st H. unfold cache_get. by destruct (rejects _ st). Qed.

Lemma keepsFresh_cache_del key : keepsFresh (cache_del key).
Proof.
  intros st H. unfold cache_del. destruct (rejects _ st); [done|].
  intros k v expiry. simpl. intros Hk.
  apply lookup_delete_Some in Hk as [_ Hk]. by apply (H k v).
Qed.

Lemma keepsFresh_cache_setex key seconds v :
  seconds ≤ 300 → keepsFresh (cache_setex key seconds v).
Proof.
  intros Hs st H. unfold cache_setex. destruct (rejects _ st); [done|].
  intros k w expiry. simpl. intros Hk.
  apply lookup_insert_Some in Hk as [[_ Hk]|[_ Hk]].
  - inversion Hk. lia.
  - by apply (H k w).
Qed.

Lemma keepsFresh_emit e : keepsFresh (emit e).
Proof.
  intros st H. unfold emit, listeners, log, bind, modify.
  destruct e; simpl; try done; by destruct (alertFault st).
Qed.

Lemma keepsFresh_getReservedStock pid size color :
  keepsFresh (getReservedStock pid size color).
Proof.
  intros st H. unfold getReservedStock.
  destruct (reservations st !! _); [|done].
  by destruct (scanReservations _ _).
Qed.

Create HintDb fresh.
#[local] Hint Resolve keepsFresh_ret keepsFresh_throw keepsFresh_gets
  keepsFresh_cache_get keepsFresh_cache_del keepsFresh_emit
  keepsFresh_getReservedStock : fresh.

(** One step through an operation built from the collaborators. *)
Ltac keeps_fresh :=
  repeat first
    [ solve [auto with fresh]
    | apply keepsFresh_modify; [done | done]
    | apply keepsFresh_cache_setex; lia
    | apply keepsFresh_bind; [|intros ?]
    | apply keepsFresh_tryCatch; [|intros ?]
    | case_match ].

Lemma keepsFresh_checkAvailability pid qty size color :
  keepsFresh (checkAvailability pid qty size color).
Proof.
  unfold checkAvailability, findById, log. keeps_fresh.
Qed.

Lemma keepsFresh_reserveStock pid qty opts rid :
  keepsFresh (reserveStock pid qty opts rid).
Proof.
  unfold reserveStock, setTimeout, log.
  pose proof keepsFresh_checkAvailability. keeps_fresh.
Qed.

Lemma keepsFresh_releaseReservation rid pid size color :
  keepsFresh (releaseReservation rid pid size color).
Proof.
  unfold releaseReservation, log. keeps_fresh.
Qed.

Lemma keepsFresh_checkStockAlerts pid p size color :
  keepsFresh (checkStockAlerts pid p size color).
Proof. unfold checkStockAlerts. keeps_fresh. Qed.

Lemma keepsFresh_updateStock pid qty operation size color :
  keepsFresh (updateStock pid qty operation size color).
Proof.
  unfold updateStock, findById, save, log.
  pose proof keepsFresh_checkStockAlerts. keeps_fresh.
Qed.

Lemma keepsFresh_cleanupExpiredReservations :
  keepsFresh cleanupExpiredReservations.
Proof.
  unfold cleanupExpiredReservations, log. keeps_fresh.
Qed.

Lemma keepsFresh_tick d : 0 ≤ d → keepsFresh (tick d).
Proof.
  intros Hd st H key v expiry Hk. simpl in *.
  specialize (H key v expiry Hk). lia.
Qed.

Lemma keepsFresh_runCall pid size color c st :
  forward c → cacheFresh st → cacheFresh (runCall pid size color c st).
Proof.
  intros Hc H. destruct c; simpl.
  - by apply keepsFresh_checkAvailability.
  - by apply keepsFresh_reserveStock.
  - by apply keepsFresh_releaseReservation.
  - by apply keepsFresh_updateStock.
  - by apply keepsFresh_cleanupExpiredReservations.
  - by apply keepsFresh_tick.
  - done.
Qed.

(** X15. No cache entry outlives 300 seconds.  The only write to the
    cache is the [cache.setex(cacheKey, 300, ...)] of [checkAvailability];
    every other method only reads or deletes entries.  So, from a store
    whose cache entries all expire within 300 seconds (an empty cache,
    for one), after any sequence of [checkAvailability], [reserveStock],
    [releaseReservation] and [updateStock] calls, sweeps and time passing
    on a key, every entry still expires within 300 seconds of the moment;
    and once 300 more seconds have passed, [cache.get] answers a miss for
    every key: a figure that has gone stale is served for 300 seconds at
    most. *)
Theorem X15_cache_forgets_within_300_seconds pid size color cs st d key :
  cacheFresh st → Forall forward cs → 300 * 1000 ≤ d →
  let st' := runCalls pid size color cs st in
  cacheFresh st' ∧ cacheLookup (tick d st').2 key = None.
Proof.
  intros H Hcs Hd st'.
  assert (cacheFresh st') as Hfresh.
  { subst st'. unfold runCalls. revert st H.
    induction Hcs as [|c cs Hc _ IH]; intros st H; [done|].
    simpl. apply IH. by apply keepsFresh_runCall. }
  split; [done|].
  unfold cacheLookup. simpl.
  destruct (cache st' !! key) as [[v expiry]|] eqn:Hk; [|done].
  specialize (Hfresh key v expiry Hk).
  destruct (Z.ltb_spec (clock st' + d) expiry); [lia | done].
Qed.

Lemma X15_witness :
  cacheLookup
    (tick 300000
       (runCalls "p" None None
          [CallCheck 1; CallUpdate 0 "set"; Elapse 1000; CallCheck 1]
          (shop 5))).2
    (cacheKey "p" None None) = None.
Proof.
  apply (X15_cache_forgets_within_300_seconds "p" None None
           [CallCheck 1; CallUpdate 0 "set"; Elapse 1000; CallCheck 1]
           (shop 5) 300000 (cacheKey "p" None None)).
  - intros key v expiry Hk. simpl in Hk. by rewrite lookup_empty in Hk.
  - repeat constructor. simpl. lia.
  - lia.
Defined.
